(** * dfs_scraper: normalisation helpers of the DFS scrapers

    A shallow embedding of the pure helpers of [dfs_scraper.py]
    (salary decoding, team and name conversion, date parsing and the
    short-name detector of the odds scraper) together with the small part
    of the Python runtime they rely on: exceptions, [print], [dict]
    lookup, [int], [re.findall] and the [datetime] constructor.

    Python [str] values are modelled by [string]; a character stands for
    a code point below 256.  Python integers are [Z]. *)

From Stdlib Require Import ZArith QArith String Ascii List Lia Bool.
From stdpp Require Import base option list gmap strings.

Local Open Scope string_scope.
Local Open Scope Z_scope.

(** ** The Python runtime *)

Module Py.

(** The exceptions the helpers can meet.  [OtherError] stands for any
    exception raised by code that lives outside this file. *)
Inductive exn :=
| IndexError
| KeyError
| ValueError
| ZeroDivisionError
| OtherError.

(** What a call can observe and change: the lines sent to the standard
    output by [print], and the log of the shared [name_converter]. *)
Record world := World {
  stdout : list string;
  unhandled_names : list string
}.

Definition w0 : world := World [] [].

Inductive result (A : Type) :=
| Ret (a : A)
| Raise (e : exn).
Arguments Ret {A} a.
Arguments Raise {A} e.

(** A computation: it reads and updates the world and either returns a
    value or raises. *)
Definition M (A : Type) : Type := world → result A * world.

Definition ret {A} (a : A) : M A := λ w, (Ret a, w).
Definition raise {A} (e : exn) : M A := λ w, (Raise e, w).
Definition bind {A B} (m : M A) (k : A → M B) : M B :=
  λ w, match m w with
       | (Ret a, w') => k a w'
       | (Raise e, w') => (Raise e, w')
       end.

(** [try: body except: handler], with a bare [except] clause. *)
Definition try_except {A} (body handler : M A) : M A :=
  λ w, match body w with
       | (Ret a, w') => (Ret a, w')
       | (Raise _, w') => handler w'
       end.

Definition print (line : string) : M unit :=
  λ w, (Ret tt, World (stdout w ++ [line]) (unhandled_names w)).

Definition lift_option {A} (e : exn) (o : option A) : M A :=
  match o with
  | Some a => ret a
  | None => raise e
  end.

(** [d[k]] on a dictionary. *)
Definition getitem {V} (d : gmap string V) (k : string) : M V :=
  lift_option KeyError (d !! k).

(** [l[i]] on a list or tuple, for [i >= 0]. *)
Definition index {A} (l : list A) (i : nat) : M A :=
  lift_option IndexError (l !! i).

(** Runs a computation that ignores the world. *)
Definition run {A} (m : M A) : result A := fst (m w0).

End Py.

Import Py.

#[global] Instance Py_ret : MRet M := @ret.
#[global] Instance Py_bind : MBind M := λ A B k m, bind m k.

(** ** Characters and [int] *)

Definition code (c : ascii) : Z := Z.of_N (N_of_ascii c).

Definition is_digit (c : ascii) : bool := (48 <=? code c) && (code c <=? 57).
Definition is_upper (c : ascii) : bool := (65 <=? code c) && (code c <=? 90).
Definition is_lower (c : ascii) : bool := (97 <=? code c) && (code c <=? 122).

(** [\s] on a [str] pattern: the Unicode white space below 256. *)
Definition is_space (c : ascii) : bool :=
  ((9 <=? code c) && (code c <=? 13))
  || ((28 <=? code c) && (code c <=? 32))
  || (code c =? 133) || (code c =? 160).

Definition is_char (x c : ascii) : bool := Ascii.eqb x c.

Definition digit_val (c : ascii) : Z := code c - 48.

Fixpoint digits_val (acc : Z) (s : string) : option Z :=
  match s with
  | EmptyString => Some acc
  | String c s' =>
      if is_digit c then digits_val (10 * acc + digit_val c) s' else None
  end.

(** [int(s)] for the strings the helpers pass to it: a non-empty run of
    decimal digits gives its value, anything else is a [ValueError]. *)
Definition int_value (s : string) : option Z :=
  match s with
  | EmptyString => None
  | _ => digits_val 0 s
  end.

Definition int (s : string) : M Z := lift_option ValueError (int_value s).

(** ** Regular expressions

    The three patterns of the module are sequences of character classes
    with a greedy bounded repetition, and one alternation of words; some
    of them sit in capture groups.  Matching is by lists of successes,
    in the order in which the backtracking matcher of [re] tries them,
    so that the head of the list is the match Python reports. *)

Module Re.

Inductive atom :=
| Class (p : ascii → bool) (lo hi : nat)   (* [p]{lo,hi} *)
| Alt (ws : list string).                  (* w1|w2|... *)

Inductive item :=
| Bare (a : atom)
| Group (body : list atom).

Definition regex := list item.

Definition at_least_zero (lo : nat) (s : string) : list (string * string) :=
  match lo with
  | O => [("", s)]
  | S _ => []
  end.

(** The splits [(taken, rest)] of [s] by [p{lo,hi}], longest first. *)
Fixpoint class_splits (p : ascii → bool) (lo hi : nat) (s : string)
  : list (string * string) :=
  match hi with
  | O => at_least_zero lo s
  | S hi' =>
      match s with
      | String c s' =>
          if p c
          then map (λ '(m, r), (String c m, r))
                   (class_splits p (Nat.pred lo) hi' s')
               ++ at_least_zero lo s
          else at_least_zero lo s
      | EmptyString => at_least_zero lo s
      end
  end.

Fixpoint strip_prefix (w s : string) : option string :=
  match w with
  | EmptyString => Some s
  | String a w' =>
      match s with
      | String b s' => if Ascii.eqb a b then strip_prefix w' s' else None
      | EmptyString => None
      end
  end.

Definition word_splits (s : string) (w : string) : list (string * string) :=
  match strip_prefix w s with
  | Some r => [(w, r)]
  | None => []
  end.

Definition atom_splits (a : atom) (s : string) : list (string * string) :=
  match a with
  | Class p lo hi => class_splits p lo hi s
  | Alt ws => flat_map (word_splits s) ws
  end.

Fixpoint atoms_splits (body : list atom) (s : string)
  : list (string * string) :=
  match body with
  | [] => [("", s)]
  | a :: body' =>
      flat_map (λ '(m1, r1),
                 map (λ '(m2, r2), (m1 +:+ m2, r2)) (atoms_splits body' r1))
               (atom_splits a s)
  end.

(** All matches of [r] that start at the beginning of [s]: the captured
    groups and what is left of [s]. *)
Fixpoint matches (r : regex) (s : string) : list (list string * string) :=
  match r with
  | [] => [([], s)]
  | Bare a :: r' =>
      flat_map (λ '(_, r1), matches r' r1) (atom_splits a s)
  | Group body :: r' =>
      flat_map (λ '(m, r1),
                 map (λ '(caps, r2), (m :: caps, r2)) (matches r' r1))
               (atoms_splits body s)
  end.

Definition match_at (r : regex) (s : string) : option (list string * string) :=
  head (matches r s).

(** The leftmost match. *)
Fixpoint search (r : regex) (s : string) : option (list string * string) :=
  match match_at r s with
  | Some m => Some m
  | None =>
      match s with
      | EmptyString => None
      | String _ s' => search r s'
      end
  end.

Fixpoint findall_from (fuel : nat) (r : regex) (s : string)
  : list (list string) :=
  match fuel with
  | O => []
  | S fuel' =>
      match search r s with
      | Some (caps, rest) => caps :: findall_from fuel' r rest
      | None => []
      end
  end.

(** [re.findall(r, s)] for a pattern with two groups or more, none of
    whose matches is empty: the tuples of groups of the successive
    matches, from left to right. *)
Definition findall (r : regex) (s : string) : list (list string) :=
  findall_from (S (String.length s)) r s.

End Re.

(** ** [datetime.datetime] *)

Record datetime := Datetime {
  year : Z;
  month : Z;
  day : Z;
  hour : Z;
  minute : Z
}.

Definition is_leap (y : Z) : bool :=
  (y mod 4 =? 0) && (negb (y mod 100 =? 0) || (y mod 400 =? 0)).

Definition days_in_month (y m : Z) : Z :=
  if m =? 2 then (if is_leap y then 29 else 28)
  else if (m =? 4) || (m =? 6) || (m =? 9) || (m =? 11) then 30
  else 31.

Definition valid_datetime (y m d h mi : Z) : bool :=
  (1 <=? y) && (y <=? 9999)
  && (1 <=? m) && (m <=? 12)
  && (1 <=? d) && (d <=? days_in_month y m)
  && (0 <=? h) && (h <=? 23)
  && (0 <=? mi) && (mi <=? 59).

(** [datetime.datetime(y, m, d, h, mi)]: a field out of range is a
    [ValueError]. *)
Definition mk_datetime (y m d h mi : Z) : M datetime :=
  if valid_datetime y m d h mi then ret (Datetime y m d h mi)
  else raise ValueError.

(** ** What the module imports from the rest of the [dfs] package *)

(** Modelled from the spec: [scrape.month_conversion], which is defined in
    [dfs.scrape.utils] and not in this file; the fixed 12-entry table from
    month-name abbreviation to month number. *)
Definition month_conversion : gmap string Z :=
  list_to_map
    [("Jan", 1); ("Feb", 2); ("Mar", 3); ("Apr", 4); ("May", 5); ("Jun", 6);
     ("Jul", 7); ("Aug", 8); ("Sep", 9); ("Oct", 10); ("Nov", 11);
     ("Dec", 12)].

(** Modelled from the spec: [NameConverter.clean] of [dfs.db.qual_ctrl],
    which is not in this file.  The raw name is normalised and looked up
    in the alias table; when no entry matches, the normalised string is
    returned and the raw input joins the log of unresolved names (an
    ordered set: a name already logged is not logged twice). *)
Definition NameConverter_clean (normalize : string → string)
    (aliases : gmap string string) (name : string) : M string :=
  λ w,
    match aliases !! normalize name with
    | Some canonical => (Ret canonical, w)
    | None =>
        (Ret (normalize name),
         World (stdout w)
               (if decide (name ∈ unhandled_names w) then unhandled_names w
                else unhandled_names w ++ [name]))
    end.

(** ** [convert_name] *)

(** [name_converter.clean] is the parameter [clean]: any computation from
    a name to a name, which may raise. *)
Definition convert_name (clean : string → M string)
    (name : string) (print_warning : bool) : M string :=
  try_except
    (clean name)
    ((if print_warning
      then print ("Warning: convert_name() failed to convert " +:+ name +:+ ".")
      else ret tt) ≫= λ _, ret name).

(** ** [DailyNBALineups] *)

Module DailyNBALineups.

(** ['\$(\d{1,2})\.(\d)K'] *)
Definition regexp : Re.regex :=
  [ Re.Bare (Re.Class (is_char "$") 1 1);
    Re.Group [Re.Class is_digit 1 2];
    Re.Bare (Re.Class (is_char ".") 1 1);
    Re.Group [Re.Class is_digit 1 1];
    Re.Bare (Re.Class (is_char "K") 1 1) ].

Definition convert_salary (salary_str : string) : M Z :=
  pieces ← index (Re.findall regexp salary_str) 0;
  p0 ← index pieces 0;
  p1 ← index pieces 1;
  thousands ← int p0;
  hundreds ← int p1;
  ret (thousands * 1000 + hundreds * 100).

Definition convert_team (team_conversion : gmap string string)
    (team_name : string) : M (option string) :=
  try_except
    (code ← getitem team_conversion team_name; ret (Some code))
    (print ("Failed converting team name: " +:+ team_name) ≫= λ _, ret None).

End DailyNBALineups.

(** ** [RotoWorldInjuries] *)

Module RotoWorldInjuries.

(** The attributes a method reads: the team table and the reference
    moment taken from the clock when the object was built. *)
Record self := Self {
  team_conversion : gmap string string;
  self_year : Z;
  self_month : Z
}.

(** ['([A-Z][a-z]{2,3})\s?(\d{1,2})'] *)
Definition regexp : Re.regex :=
  [ Re.Group [Re.Class is_upper 1 1; Re.Class is_lower 2 3];
    Re.Bare (Re.Class is_space 0 1);
    Re.Group [Re.Class is_digit 1 2] ].

(** [scrape.clean_html] is defined in [dfs.scrape.utils]; it is the
    parameter [clean_html], and [months] is [scrape.month_conversion]. *)
Definition parse_date (clean_html : string → M string)
    (months : gmap string Z) (s : self) (date_str : string)
  : M (option datetime) :=
  λ w,
    match clean_html date_str w with
    | (Raise _, w') =>
        (* the assignment did not happen: the warning shows the argument *)
        (print ("Warning: Failed to clean following string to datetime: "
                +:+ date_str +:+ ".") ≫= λ _, ret None) w'
    | (Ret date_str', w') =>
        try_except
          (pieces ← index (Re.findall regexp date_str') 0;
           p0 ← index pieces 0;
           month ← getitem months p0;
           let year := if month >? self_month s
                       then self_year s - 1
                       else self_year s in
           p1 ← index pieces 1;
           day ← int p1;
           dt ← mk_datetime year month day 0 0;
           ret (Some dt))
          (print ("Warning: Failed to clean following string to datetime: "
                  +:+ date_str' +:+ ".") ≫= λ _, ret None) w'
    end.

Definition convert_team (s : self) (team_name : string) : M (option string) :=
  try_except
    (code ← getitem (team_conversion s) team_name; ret (Some code))
    (print ("Warning: Failed converting team name: " +:+ team_name +:+ ".")
     ≫= λ _, ret (Some team_name)).

End RotoWorldInjuries.

(** ** [RotoWorldNews] *)

Module RotoWorldNews.

(** ['([A-Z][a-z]{2,3})\s(\d{1,2})\s\-\s(\d{1,2}):(\d{2})\s(AM|PM)'] *)
Definition regexp : Re.regex :=
  [ Re.Group [Re.Class is_upper 1 1; Re.Class is_lower 2 3];
    Re.Bare (Re.Class is_space 1 1);
    Re.Group [Re.Class is_digit 1 2];
    Re.Bare (Re.Class is_space 1 1);
    Re.Bare (Re.Class (is_char "-") 1 1);
    Re.Bare (Re.Class is_space 1 1);
    Re.Group [Re.Class is_digit 1 2];
    Re.Bare (Re.Class (is_char ":") 1 1);
    Re.Group [Re.Class is_digit 2 2];
    Re.Bare (Re.Class is_space 1 1);
    Re.Group [Re.Alt ["AM"; "PM"]] ].

Definition convert_team (team_conversion : gmap string string)
    (team_name : string) : M (option string) :=
  try_except
    (code ← getitem team_conversion team_name; ret (Some code))
    (print ("Failed converting team name: " +:+ team_name) ≫= λ _, ret None).

(** A static method: it reads no attribute, hence no reference moment. *)
Definition parse_date (months : gmap string Z) (date_str : string)
  : M (option datetime) :=
  try_except
    (pieces ← index (Re.findall regexp date_str) 0;
     p0 ← index pieces 0;
     month ← getitem months p0;
     p1 ← index pieces 1;
     p2 ← index pieces 2;
     p3 ← index pieces 3;
     day ← int p1;
     hour ← int p2;
     minute ← int p3;
     p4 ← index pieces 4;
     let hour := if String.eqb p4 "PM" then hour + 12 else hour in
     dt ← mk_datetime 2018 month day hour minute;
     ret (Some dt))
    (ret None).

End RotoWorldNews.

(** ** [OddsShark] *)

Module OddsShark.

Definition convert_team (team_conversion : gmap string string)
    (team : string) : M (option string) :=
  try_except
    (code ← getitem team_conversion team; ret (Some code))
    (print ("Warning: Failed to clean " +:+ team +:+ " to nba_code form.")
     ≫= λ _, ret (Some team)).

(** [k in d] on a dictionary. *)
Definition contains (d : gmap string string) (k : string) : bool :=
  bool_decide (is_Some (d !! k)).

(** The body of the [for] loop, on the counter [count_short]. *)
Definition count_step (team_conversion : gmap string string)
    (count_short : Z) (pair : string * string) : Z :=
  let '(team, opp) := pair in
  let count_short :=
    if contains team_conversion team then count_short + 1 else count_short in
  if contains team_conversion opp then count_short + 1 else count_short.

(** [a / b] on integers is the true division of Python 3: it raises on a
    zero divisor, and otherwise gives the float nearest to the quotient.
    The quotient is kept exact here; below [2^53] the comparison of the
    float with [0.5] and that of the quotient with one half agree. *)
Definition truediv (a b : Z) : M Q :=
  if b =? 0 then raise ZeroDivisionError else ret (a # Z.to_pos b).

Definition teams_provided_in_short_name (team_conversion : gmap string string)
    (teams : list (string * string)) : M bool :=
  let total_teams := Z.of_nat (length teams) * 2 in
  let count_short := fold_left (count_step team_conversion) teams 0 in
  ratio ← truediv count_short total_teams;
  ret (negb (Qle_bool ratio (1 # 2))).

End OddsShark.

(** ** Loops and handlers shared by the row builders *)

(** [try: body except IndexError: handler]. *)
Definition try_except_IndexError {A} (body handler : M A) : M A :=
  λ w, match body w with
       | (Raise IndexError, w') => handler w'
       | r => r
       end.

(** [for x in xs: out.append(f(x))], and [Series.apply(f)] of pandas: [f]
    is called on the elements from first to last and the results are
    collected in that order. *)
Fixpoint for_each {A B} (f : A → M B) (xs : list A) : M (list B) :=
  match xs with
  | [] => ret []
  | x :: xs' => y ← f x; ys ← for_each f xs'; ret (y :: ys)
  end.

(** ** The rows of [DailyNBALineups]

    A row is the dictionary the methods build; [np.NaN] in a salary cell
    is [None], and so is the key ['team'] before it is set.  What the
    methods read from the page through BeautifulSoup is a parameter. *)

Module LineupRows.

Record row := Row {
  name : string;
  pos : string;
  fds : option Z;
  dks : option Z;
  team : option string
}.

Definition set_team (t : string) (r : row) : row :=
  Row (name r) (pos r) (fds r) (dks r) (Some t).

Section soup.

Variable tag : Type.
(** [td.find('a', {'class':'sdns_player_data'}).text] *)
Variable player_name : tag → M string.
(** [td.find('span', {'class':'pos'}).text] *)
Variable position : tag → M string.
(** the texts of [td.find_all('a', {'class':'sal'})] *)
Variable salaries : tag → list string.
(** [team_table.find('tbody').find_all('td')] *)
Variable cells : tag → M (list tag).
(** [tag.find('div', {'class':'sdns_team away_team'}).find('span').text] *)
Variable away_name : tag → M string.
(** [tag.find('div', {'class':'sdns_team home_team'}).find('span').text] *)
Variable home_name : tag → M string.
(** [tag.find('div', {'class':'sdns_match_wrapper'}).find_all('table', ...)] *)
Variable team_tables : tag → M (list tag).

(** The body of the loop of [_extract_team_starters]. *)
Definition starter (td : tag) : M row :=
  name ← player_name td;
  pos ← position td;
  let sal_tags := salaries td in
  fds ← try_except
          (text ← index sal_tags 0;
           salary ← DailyNBALineups.convert_salary text;
           ret (Some salary))
          (ret None);
  dks ← try_except_IndexError
          (text ← index sal_tags 1;
           salary ← DailyNBALineups.convert_salary text;
           ret (Some salary))
          (ret None);
  ret (Row name pos fds dks None).

Definition _extract_team_starters (team_table : tag) : M (list row) :=
  tds ← cells team_table;
  for_each starter tds.

Definition _extract_game_starters (game : tag) : M (list row) :=
  away_team ← away_name game;
  home_team ← home_name game;
  tables ← team_tables game;
  away_table ← index tables 0;
  away_rows ← _extract_team_starters away_table;
  let away_rows := map (set_team away_team) away_rows in
  home_table ← index tables 1;
  home_rows ← _extract_team_starters home_table;
  let home_rows := map (set_team home_team) home_rows in
  ret (away_rows ++ home_rows)%list.

End soup.

End LineupRows.

(** ** The related players of [RotoWorldNews]

    The [<div class="related">] as the method reads it: its text and its
    links, each link with its text and its attributes. *)

Module NewsRows.

Record a_tag := ATag {
  a_text : string;
  attrs : gmap string string
}.

Record related := Related {
  text : string;
  find_all_a : list a_tag
}.

(** The loop over [enumerate(tag.find_all('a'))], from index [i] with the
    string [s] built so far. *)
Fixpoint related_loop (clean : string → M string) (i : nat) (s : string)
    (a_tags : list a_tag) : M string :=
  match a_tags with
  | [] => ret s
  | a :: rest =>
      name ← convert_name clean (a_text a) false;
      link ← getitem (attrs a) "href";
      let s := if (0 <? i)%nat then s +:+ ";" else s in
      let s := s +:+ (name +:+ "|" +:+ link) in
      related_loop clean (S i) s rest
  end.

Definition _parse_related_players (clean : string → M string)
    (tag : option related) : M (option string) :=
  match tag with
  | None => ret None
  | Some t =>
      if (String.length (text t) =? 0)%nat then ret None
      else try_except
             (s ← related_loop clean 0 "" (find_all_a t); ret (Some s))
             (ret None)
  end.

End NewsRows.

(** ** The table of [OddsShark]

    The end of [OddsShark.scrape], from the comment "Compile all
    information into DataFrame" on.  The data frame is the list of its
    rows; a spread or a total is a float, of which only [nan] and the
    change of sign matter here. *)

Module OddsRows.

Section floats.

Variable F : Type.
Variable neg : F → F.

Inductive float :=
| NaN
| Num (x : F).

Record row (C : Type) := Row {
  team : C;
  opp : C;
  total : float;
  spread : float
}.
Arguments Row {C} team opp total spread.

(** The loop over [enumerate(matchup_teams)], from index [i]. *)
Fixpoint compile (i : nat) (matchup_teams : list (string * string))
    (spreads impl_totals : list float) (df : list (row string))
  : M (list (row string)) :=
  match matchup_teams with
  | [] => ret df
  | (team, opp) :: rest =>
      team_spread ← index spreads i;
      let opp_spread :=
        match team_spread with
        | NaN => NaN
        | Num x => Num (neg x)
        end in
      impl_total ← index impl_totals i;
      let row1 := Row team opp impl_total team_spread in
      let row2 := Row opp team impl_total opp_spread in
      compile (S i) rest spreads impl_totals (df ++ [row1; row2])%list
  end.

Definition set_cells {C D} (r : row C) (cells : D * D) : row D :=
  Row (fst cells) (snd cells) (total C r) (spread C r).

(** The two column assignments, then the unchanged frame when the names
    are not in short form.  A converted cell holds what [convert_team]
    returned. *)
Definition finish (team_conversion : gmap string string)
    (matchup_teams : list (string * string))
    (spreads impl_totals : list float) (df : list (row string))
  : M (list (row (option string))) :=
  df ← compile 0 matchup_teams spreads impl_totals df;
  short ← OddsShark.teams_provided_in_short_name team_conversion matchup_teams;
  if (short : bool)
  then teams ← for_each (OddsShark.convert_team team_conversion)
                        (map (team string) df);
       opps ← for_each (OddsShark.convert_team team_conversion)
                       (map (opp string) df);
       ret (zip_with set_cells df (zip teams opps))
  else ret (map (λ r, set_cells r (Some (team string r), Some (opp string r)))
                df).

End floats.

Arguments NaN {F}.
Arguments Num {F} x.
Arguments Row {F C} team opp total spread.
Arguments team {F C} r.
Arguments opp {F C} r.
Arguments total {F C} r.
Arguments spread {F C} r.
Arguments set_cells {F C D} r cells.

End OddsRows.

(** * The vocabulary of the statements *)

(** Every character of [s] is in the class [p]. *)
Fixpoint str_forall (p : ascii → bool) (s : string) : bool :=
  match s with
  | EmptyString => true
  | String c s' => p c && str_forall p s'
  end.

(** A computation that leaves the world as it found it. *)
Definition silent {A} (m : M A) : Prop := ∀ w r w', m w = (r, w') → w' = w.

(** The shorthand: currency marker, integer part [ds], decimal point,
    one fractional digit [h], the unit marker, then anything. *)
Definition shorthand (ds : string) (h : ascii) (post : string) : string :=
  String "$" (ds +:+ String "." (String h (String "K" post))).

Definition well_formed (ds : string) (h : ascii) : Prop :=
  str_forall is_digit ds = true
  ∧ (1 ≤ String.length ds ≤ 2)%nat
  ∧ is_digit h = true.

(** The pattern occurs somewhere in [s]. *)
Definition has_shorthand (s : string) : Prop :=
  ∃ pre ds h post, s = pre +:+ shorthand ds h post ∧ well_formed ds h.

(** The number a run of decimal digits writes. *)
Definition number (ds : string) : Z :=
  fold_left (λ acc c, 10 * acc + digit_val c) (list_ascii_of_string ds) 0.

(** The year the backward rollover gives to month [m]. *)
Definition rollover (s : RotoWorldInjuries.self) (m : Z) : Z :=
  if m >? RotoWorldInjuries.self_month s
  then RotoWorldInjuries.self_year s - 1
  else RotoWorldInjuries.self_year s.

(** The hour of day the method hands to the constructor. *)
Definition hour_of_day (meridiem : string) (h : Z) : Z :=
  if String.eqb meridiem "PM" then h + 12 else h.

(** The world after one more line on the standard output. *)
Definition printed (w : world) (line : string) : world :=
  World (stdout w ++ [line]) (unhandled_names w).

(** The labels of a batch of pairs, and how many of them are keys of the
    table. *)
Definition labels (teams : list (string * string)) : list string :=
  flat_map (λ '(team, opp), [team; opp]) teams.

Definition matching (table : gmap string string)
    (teams : list (string * string)) : nat :=
  length (List.filter (OddsShark.contains table) (labels teams)).

(** A run of between [lo] and [hi] decimal digits. *)
Definition digit_run (lo hi : nat) (ds : string) : Prop :=
  str_forall is_digit ds = true ∧ (lo ≤ String.length ds ≤ hi)%nat.

(** A month word as the date patterns take it: a capital letter followed
    by two or three small letters. *)
Definition month_word (mon : string) : Prop :=
  ∃ c low, mon = String c low ∧ is_upper c = true
           ∧ str_forall is_lower low = true
           ∧ (2 ≤ String.length low ≤ 3)%nat.

(** The warning of [RotoWorldInjuries.parse_date]. *)
Definition date_warning (date_str : string) : string :=
  "Warning: Failed to clean following string to datetime: "
  +:+ date_str +:+ ".".

(** The pairs of a batch with the two teams of each pair exchanged. *)
Definition swap_pairs (teams : list (string * string))
  : list (string * string) :=
  map (λ '(team, opp), (opp, team)) teams.

(** The salary cell read from the [i]-th salary link of a player: the
    decoded amount, or [None] for [np.NaN] when the link is missing or its
    text cannot be decoded. *)
Definition salary_cell (texts : list string) (i : nat) : option Z :=
  match texts !! i with
  | Some text =>
      match run (DailyNBALineups.convert_salary text) with
      | Ret salary => Some salary
      | Raise _ => None
      end
  | None => None
  end.

(** The row of a player cell whose name and position are [n] and [p]. *)
Definition starter_row_of (n p : string) (texts : list string)
    (t : option string) : LineupRows.row :=
  LineupRows.Row n p (salary_cell texts 0) (salary_cell texts 1) t.

(** A page in miniature, to run the row builders on: a node carries a
    label, the texts of its salary links and its children. *)
#[local] Unset Elimination Schemes.
Inductive node :=
| Node (label : string) (texts : list string) (children : list node).
#[local] Set Elimination Schemes.

Definition node_label (n : node) : string :=
  match n with Node label _ _ => label end.

Definition node_texts (n : node) : list string :=
  match n with Node _ texts _ => texts end.

Definition node_children (n : node) : list node :=
  match n with Node _ _ children => children end.

Definition bulls_table : node :=
  Node "table" []
    [Node "Zach LaVine" ["$8.7K"; "$10.0K"] []; Node "Coby White" ["n/a"] []].

Definition lakers_table : node :=
  Node "table" [] [Node "LeBron James" [] []].

(** The entry of a related player: the name as [f] cleans it, a bar, the
    target of the link (empty when the link has none). *)
Definition related_entry (f : string → string) (a : NewsRows.a_tag) : string :=
  f (NewsRows.a_text a) +:+ "|" +:+ default "" (NewsRows.attrs a !! "href").

(** The entries that follow the first, each behind its separator. *)
Definition related_tail (f : string → string) (l : list NewsRows.a_tag)
  : string :=
  fold_right (λ a s, ";" +:+ related_entry f a +:+ s) "" l.

(** The change of sign of a spread, [nan] staying [nan]. *)
Definition negate {F} (neg : F → F) (x : OddsRows.float F) : OddsRows.float F :=
  match x with
  | OddsRows.NaN => OddsRows.NaN
  | OddsRows.Num v => OddsRows.Num (neg v)
  end.

(** Two rows for each matchup, paired with the spread and the total of
    the same rank: the matchup as listed, then seen from the opponent. *)
Fixpoint odds_rows {F} (neg : F → F) (matchups : list (string * string))
    (spreads totals : list (OddsRows.float F))
  : list (OddsRows.row F string) :=
  match matchups, spreads, totals with
  | (team, opp) :: matchups', sp :: spreads', tot :: totals' =>
      OddsRows.Row team opp tot sp
      :: OddsRows.Row opp team tot (negate neg sp)
      :: odds_rows neg matchups' spreads' totals'
  | _, _, _ => []
  end.

(** What a label of the table of odds becomes: the code of the table when
    the batch is taken for short names and the label is a key, the label
    itself otherwise. *)
Definition converted (table : gmap string string) (short : bool)
    (label : string) : option string :=
  Some (if short then default label (table !! label) else label).


(** * Properties *)

(** ** The runtime *)

Lemma findall_first r s : Re.findall r s !! 0%nat = fst <$> Re.search r s.
Proof.
  unfold Re.findall. simpl.
  destruct (Re.search r s) as [[caps rest]|]; reflexivity.
Qed.

Lemma bind_ret {A B} (m : M A) (k : A → M B) a w w' :
  m w = (Ret a, w') → (m ≫= k) w = k a w'.
Proof. intros H. unfold mbind, Py_bind, bind. by rewrite H. Qed.

Lemma bind_raise {A B} (m : M A) (k : A → M B) e w w' :
  m w = (Raise e, w') → (m ≫= k) w = (Raise e, w').
Proof. intros H. unfold mbind, Py_bind, bind. by rewrite H. Qed.

Lemma index_Some {A} (l : list A) i a w :
  l !! i = Some a → index l i w = (Ret a, w).
Proof. intros H. unfold index. by rewrite H. Qed.

Lemma index_None {A} (l : list A) i w :
  l !! i = None → index l i w = (Raise IndexError, w).
Proof. intros H. unfold index. by rewrite H. Qed.

Lemma getitem_Some {V} (d : gmap string V) k v w :
  d !! k = Some v → getitem d k w = (Ret v, w).
Proof. intros H. unfold getitem. by rewrite H. Qed.

Lemma getitem_None {V} (d : gmap string V) k w :
  d !! k = None → getitem d k w = (Raise KeyError, w).
Proof. intros H. unfold getitem. by rewrite H. Qed.

Lemma int_Some s z w : int_value s = Some z → int s w = (Ret z, w).
Proof. intros H. unfold int. by rewrite H. Qed.

Lemma int_None s w : int_value s = None → int s w = (Raise ValueError, w).
Proof. intros H. unfold int. by rewrite H. Qed.

Lemma bind_inv {A B} (m : M A) (k : A → M B) w b w' :
  (m ≫= k) w = (Ret b, w') →
  ∃ a w1, m w = (Ret a, w1) ∧ k a w1 = (Ret b, w').
Proof.
  unfold mbind, Py_bind, bind.
  destruct (m w) as [[a|e] w1]; [eauto|discriminate].
Qed.

Lemma lift_option_inv {A} e (o : option A) w a w' :
  lift_option e o w = (Ret a, w') → o = Some a ∧ w' = w.
Proof. destruct o; unfold lift_option, ret, raise; intros [= -> ->]; auto. Qed.

Lemma lift_option_same {A} e (o : option A) w r w' :
  lift_option e o w = (r, w') → w' = w.
Proof. destruct o; unfold lift_option, ret, raise; by intros [= _ ->]. Qed.

Lemma mk_datetime_inv y m d h mi w dt w' :
  mk_datetime y m d h mi w = (Ret dt, w') →
  valid_datetime y m d h mi = true ∧ dt = Datetime y m d h mi ∧ w' = w.
Proof.
  unfold mk_datetime, ret, raise.
  destruct (valid_datetime y m d h mi); intros [= <- <-]; auto.
Qed.

Lemma try_except_inv {A} (body handler : M A) w a w' :
  try_except body handler w = (Ret a, w') →
  body w = (Ret a, w') ∨ ∃ e w1, body w = (Raise e, w1) ∧ handler w1 = (Ret a, w').
Proof.
  unfold try_except. destruct (body w) as [[b|e] w1]; [left|right]; eauto.
Qed.

Lemma silent_ret {A} (a : A) : silent (ret a).
Proof. intros w r w'. unfold ret. by intros [= _ ->]. Qed.

Lemma silent_lift_option {A} e (o : option A) : silent (lift_option e o).
Proof. intros w r w'. apply lift_option_same. Qed.

Lemma silent_mk_datetime y m d h mi : silent (mk_datetime y m d h mi).
Proof.
  intros w r w'. unfold mk_datetime, ret, raise.
  destruct (valid_datetime y m d h mi); by intros [= _ ->].
Qed.

Lemma silent_bind {A B} (m : M A) (k : A → M B) :
  silent m → (∀ a, silent (k a)) → silent (m ≫= k).
Proof.
  intros Hm Hk w r w'. unfold mbind, Py_bind, bind.
  destruct (m w) as [[a|e] w1] eqn:E; apply Hm in E as ->.
  - apply Hk.
  - by intros [= _ ->].
Qed.

Lemma silent_try_except {A} (body handler : M A) :
  silent body → silent handler → silent (try_except body handler).
Proof.
  intros Hb Hh w r w'. unfold try_except.
  destruct (body w) as [[a|e] w1] eqn:E; apply Hb in E as ->.
  - by intros [= _ ->].
  - apply Hh.
Qed.

Create HintDb silent.
#[local] Hint Resolve silent_ret silent_lift_option silent_mk_datetime : silent.

(** ** Regular expressions *)

Lemma at_least_zero_sound lo s m r :
  In (m, r) (Re.at_least_zero lo s) → m = "" ∧ r = s ∧ lo = O.
Proof.
  destruct lo; simpl; [|tauto].
  intros [H|[]]. by inversion H.
Qed.

(** A split by [p{lo,hi}] cuts the string in two, the first part made of
    between [lo] and [hi] characters of the class. *)
Lemma class_splits_sound p lo hi s m r :
  In (m, r) (Re.class_splits p lo hi s) →
  s = m +:+ r ∧ str_forall p m = true
  ∧ (lo ≤ String.length m ≤ hi)%nat.
Proof.
  revert lo s m r. induction hi as [|hi IH]; intros lo s m r; simpl.
  - intros H. apply at_least_zero_sound in H as (-> & -> & ->). auto.
  - assert (Hz : In (m, r) (Re.at_least_zero lo s) →
                 s = m +:+ r ∧ str_forall p m = true
                 ∧ (lo ≤ String.length m ≤ S hi)%nat).
    { intros H. apply at_least_zero_sound in H as (-> & -> & ->).
      simpl. repeat split; lia. }
    destruct s as [|c s']; [exact Hz|].
    destruct (p c) eqn:Hc; [|exact Hz].
    rewrite in_app_iff, in_map_iff.
    intros [([m' r'] & Heq & Hin)|H]; [|by apply Hz].
    inversion Heq; subst. apply IH in Hin as (-> & Hall & Hlen).
    simpl. rewrite Hc, Hall. repeat split; lia.
Qed.

Lemma head_In {A} (l : list A) x : head l = Some x → In x l.
Proof. destruct l; simpl; [discriminate|]. intros [= ->]. by left. Qed.

Lemma search_sound r s x :
  Re.search r s = Some x →
  ∃ pre s', s = pre +:+ s' ∧ Re.match_at r s' = Some x.
Proof.
  induction s as [|c s IH]; simpl.
  - destruct (Re.match_at r "") eqn:E; [|discriminate].
    intros [= ->]. by exists "", "".
  - destruct (Re.match_at r (String c s)) eqn:E.
    + intros [= ->]. by exists "", (String c s).
    + intros H. destruct (IH H) as (pre & s' & -> & Hm).
      by exists (String c pre), s'.
Qed.

Lemma search_complete r s pre s' x :
  s = pre +:+ s' → Re.match_at r s' = Some x → is_Some (Re.search r s).
Proof.
  intros -> Hm. induction pre as [|c pre IH]; simpl.
  - destruct s'; simpl; rewrite Hm; eauto.
  - destruct (Re.match_at r (String c (pre +:+ s'))); eauto.
Qed.

Lemma str_forall_one p m :
  str_forall p m = true → (1 ≤ String.length m ≤ 1)%nat →
  ∃ c, m = String c "" ∧ p c = true.
Proof.
  destruct m as [|c [|d m]]; simpl; intros H Hl; try lia.
  exists c. split; [done|]. by apply andb_true_iff in H as [? _].
Qed.

Lemma is_char_eq x c : is_char x c = true → c = x.
Proof. unfold is_char. intros H. by apply Ascii.eqb_eq in H. Qed.

Lemma append_nil s : "" +:+ s = s.
Proof. reflexivity. Qed.

Lemma append_cons c s t : String c s +:+ t = String c (s +:+ t).
Proof. reflexivity. Qed.

Lemma append_empty_r s : s +:+ "" = s.
Proof. induction s as [|c s IH]; [done|]. by rewrite append_cons, IH. Qed.

(** Takes apart the membership of a match in the list of successes. *)
Ltac split_in :=
  repeat match goal with
  | H : In _ (flat_map _ _) |- _ => apply in_flat_map in H as ([? ?] & ? & ?)
  | H : In _ (map _ _) |- _ => apply in_map_iff in H as ([? ?] & ? & ?)
  | H : In _ (Re.class_splits _ _ _ _) |- _ =>
      apply class_splits_sound in H as (? & ? & ?)
  | H : In _ [_] |- _ => destruct H as [H|[]]
  | H : In _ [] |- _ => destruct H
  end.

Ltac one_char :=
  repeat match goal with
  | H : str_forall _ ?m = true, H' : (1 ≤ String.length ?m ≤ 1)%nat |- _ =>
      destruct (str_forall_one _ _ H H') as (? & -> & ?); clear H H'
  | H : is_char _ _ = true |- _ => apply is_char_eq in H; subst
  end.

(** How the classes of the patterns split a string that starts with
    characters of the class. *)
Lemma class_splits_one p c s :
  p c = true → Re.class_splits p 1 1 (String c s) = [(String c "", s)].
Proof. intros H. simpl. by rewrite H. Qed.

Lemma class_splits_short p a b s :
  p a = true → p b = false →
  Re.class_splits p 1 2 (String a (String b s))
  = [(String a "", String b s)].
Proof. intros Ha Hb. simpl. by rewrite Ha, Hb. Qed.

Lemma class_splits_long p a b s :
  p a = true → p b = true →
  Re.class_splits p 1 2 (String a (String b s))
  = [(String a (String b ""), s); (String a "", String b s)].
Proof. intros Ha Hb. simpl. by rewrite Ha, Hb. Qed.

(** One step of the matcher: the split of the next class is known. *)
Ltac split_step E :=
  rewrite E by (reflexivity || assumption);
  cbn [flat_map map app].

(** ** Salaries *)

Section salary.
Import DailyNBALineups.

Lemma match_at_sound s caps rest :
  Re.match_at regexp s = Some (caps, rest) →
  ∃ ds h, s = shorthand ds h rest ∧ well_formed ds h
          ∧ caps = [ds; String h ""].
Proof.
  intros H. apply head_In in H. unfold regexp in H.
  cbn [Re.matches Re.atom_splits Re.atoms_splits] in H.
  split_in. simplify_eq. one_char.
  rewrite ?append_empty_r, ?append_cons, ?append_nil.
  eexists _, _. split; [reflexivity|]. split; [|reflexivity].
  repeat split; auto; try lia.
Qed.
Lemma match_at_shorthand ds h post :
  well_formed ds h →
  Re.match_at regexp (shorthand ds h post) = Some ([ds; String h ""], post).
Proof.
  intros (Hds & Hlen & Hh). unfold shorthand, Re.match_at, regexp.
  destruct ds as [|a [|b [|c ds]]]; simpl in Hlen; try lia; simpl in Hds;
    rewrite ?append_cons, ?append_nil;
    cbn [Re.matches Re.atom_splits Re.atoms_splits].
  - rewrite andb_true_r in Hds.
    split_step (class_splits_one (is_char "$")).
    split_step (class_splits_short is_digit a ".").
    split_step (class_splits_one (is_char ".")).
    split_step (class_splits_one is_digit h).
    split_step (class_splits_one (is_char "K")).
    reflexivity.
  - apply andb_true_iff in Hds as [Ha Hb]. rewrite andb_true_r in Hb.
    split_step (class_splits_one (is_char "$")).
    split_step (class_splits_long is_digit a b).
    split_step (class_splits_one (is_char ".")).
    split_step (class_splits_one is_digit h).
    split_step (class_splits_one (is_char "K")).
    reflexivity.
Qed.
Lemma search_here r s x : Re.match_at r s = Some x → Re.search r s = Some x.
Proof. intros H. destruct s; simpl; by rewrite H. Qed.

Lemma search_None_iff s : Re.search regexp s = None ↔ ¬ has_shorthand s.
Proof.
  split.
  - intros Hnone (pre & ds & h & post & -> & Hwf).
    pose proof (match_at_shorthand ds h post Hwf) as Hm.
    destruct (search_complete regexp _ pre _ _ eq_refl Hm) as [x Hx].
    congruence.
  - intros Hno. destruct (Re.search regexp s) as [[caps rest]|] eqn:E; [|done].
    destruct Hno. apply search_sound in E as (pre & s' & -> & Hm).
    apply match_at_sound in Hm as (ds & h & -> & Hwf & _).
    by exists pre, ds, h, rest.
Qed.

Lemma digits_val_number ds acc :
  str_forall is_digit ds = true →
  digits_val acc ds
  = Some (fold_left (λ acc c, 10 * acc + digit_val c)
                    (list_ascii_of_string ds) acc).
Proof.
  revert acc. induction ds as [|c ds IH]; intros acc; simpl; [done|].
  intros [Hc Hds]%andb_true_iff. rewrite Hc. by apply IH.
Qed.

Lemma int_value_number ds :
  str_forall is_digit ds = true → ds ≠ "" → int_value ds = Some (number ds).
Proof.
  intros H Hne. destruct ds; [done|].
  unfold int_value. by apply digits_val_number.
Qed.

Lemma convert_salary_no_match s w :
  Re.search regexp s = None → convert_salary s w = (Raise IndexError, w).
Proof.
  intros H. unfold convert_salary.
  apply bind_raise, index_None. by rewrite findall_first, H.
Qed.

(** C4: on a salary shorthand (currency marker, integer part of one or
    two digits writing T, decimal point, one fractional digit H, the unit
    marker K) [convert_salary] returns exactly T*1000 + H*100; so "$8.7K"
    gives 8700 and "$10.0K" gives 10000. *)
Theorem convert_salary_shorthand :
  (∀ ds h post w,
     well_formed ds h →
     convert_salary (shorthand ds h post) w
     = (Ret (number ds * 1000 + digit_val h * 100), w))
  ∧ run (convert_salary "$8.7K") = Ret 8700
  ∧ run (convert_salary "$10.0K") = Ret 10000.
Proof.
  split; [|split; reflexivity].
  intros ds h post w Hwf.
  pose proof (search_here _ _ _ (match_at_shorthand ds h post Hwf)) as Hs.
  destruct Hwf as (Hds & Hlen & Hh).
  unfold convert_salary.
  erewrite bind_ret; [|apply index_Some; by rewrite findall_first, Hs].
  erewrite bind_ret; [|by apply index_Some].
  erewrite bind_ret; [|by apply index_Some].
  erewrite bind_ret;
    [|apply int_Some, int_value_number; [done|destruct ds; simpl in *; [lia|done]]].
  erewrite bind_ret; [|apply int_Some, int_value_number; [by simpl; rewrite Hh|done]].
  unfold number at 2. simpl. reflexivity.
Qed.

Lemma convert_salary_shorthand_witness :
  well_formed "12" "3"
  ∧ convert_salary (shorthand "12" "3" "") w0 = (Ret 12300, w0).
Proof.
  split.
  - repeat split; simpl; lia.
  - apply (proj1 convert_salary_shorthand "12" "3"%char "" w0).
    repeat split; simpl; lia.
Defined.

(** C8: on a string in which the salary pattern does not occur, such as
    "garbage", [convert_salary] does not return a number: it raises
    [IndexError]. *)
Theorem convert_salary_malformed :
  (∀ s w, ¬ has_shorthand s → convert_salary s w = (Raise IndexError, w))
  ∧ run (convert_salary "garbage") = Raise IndexError.
Proof.
  split; [|reflexivity].
  intros s w H. by apply convert_salary_no_match, search_None_iff.
Qed.

Lemma convert_salary_malformed_witness :
  ¬ has_shorthand "8.7K"
  ∧ convert_salary "8.7K" w0 = (Raise IndexError, w0).
Proof.
  assert (H : ¬ has_shorthand "8.7K")
    by (apply search_None_iff; reflexivity).
  split; [exact H|].
  exact (proj1 convert_salary_malformed "8.7K" w0 H).
Defined.
End salary.

(** ** Dates without a time *)

(** Unfolds the monadic plumbing of a method body. *)
Ltac unfold_py :=
  unfold try_except, mbind, Py_bind, bind, index, getitem, int, lift_option,
    mk_datetime, print, ret, raise in *.

Section injuries_dates.
Import RotoWorldInjuries.

Variable clean_html : string → M string.
Variable months : gmap string Z.

Lemma parse_date_resolves s date_str w cleaned w1 pieces mon dd m d :
  clean_html date_str w = (Ret cleaned, w1) →
  Re.findall regexp cleaned !! 0%nat = Some pieces →
  pieces !! 0%nat = Some mon →
  pieces !! 1%nat = Some dd →
  months !! mon = Some m →
  int_value dd = Some d →
  valid_datetime (rollover s m) m d 0 0 = true →
  parse_date clean_html months s date_str w
  = (Ret (Some (Datetime (rollover s m) m d 0 0)), w1).
Proof.
  intros Hc Hf H0 H1 Hm Hd Hv. unfold parse_date, rollover in *.
  rewrite Hc. unfold_py. by rewrite Hf, H0, Hm, H1, Hd, Hv.
Qed.

Lemma parse_date_inv s date_str w w' dt :
  parse_date clean_html months s date_str w = (Ret (Some dt), w') →
  ∃ cleaned pieces mon dd,
    clean_html date_str w = (Ret cleaned, w')
    ∧ Re.findall regexp cleaned !! 0%nat = Some pieces
    ∧ pieces !! 0%nat = Some mon
    ∧ pieces !! 1%nat = Some dd
    ∧ months !! mon = Some (month dt)
    ∧ int_value dd = Some (day dt)
    ∧ year dt = rollover s (month dt).
Proof.
  unfold parse_date. intros H.
  destruct (clean_html date_str w) as [[cleaned|e] w1] eqn:Hc;
    unfold_py; [|discriminate].
  repeat case_match; simplify_eq;
    eexists _, _, _, _; repeat split; eauto;
    unfold rollover; simpl;
    match goal with E : (_ >? _) = _ |- _ => by rewrite E end.
Qed.

Lemma parse_date_total s date_str w :
  ∃ o w', parse_date clean_html months s date_str w = (Ret o, w').
Proof.
  unfold parse_date.
  destruct (clean_html date_str w) as [[cleaned|e] w1];
    unfold_py; repeat case_match; eauto.
Qed.

End injuries_dates.

(** C1: when [RotoWorldInjuries.parse_date] resolves a description whose
    month is m, with the reference moment (Y, M) of the object, the year
    of the timestamp is Y - 1 if m > M and Y otherwise; a valid date does
    resolve.  With reference (2024, 3), "Dec" gives 2023 and "Feb" gives
    2024. *)
Theorem injuries_parse_date_year :
  (∀ clean_html months s date_str w w' dt,
     RotoWorldInjuries.parse_date clean_html months s date_str w
     = (Ret (Some dt), w') →
     ∃ cleaned pieces mon dd,
       clean_html date_str w = (Ret cleaned, w')
       ∧ Re.findall RotoWorldInjuries.regexp cleaned !! 0%nat = Some pieces
       ∧ pieces !! 0%nat = Some mon ∧ pieces !! 1%nat = Some dd
       ∧ months !! mon = Some (month dt)
       ∧ int_value dd = Some (day dt)
       ∧ year dt = if month dt >? RotoWorldInjuries.self_month s
                   then RotoWorldInjuries.self_year s - 1
                   else RotoWorldInjuries.self_year s)
  ∧ (∀ clean_html months s date_str w cleaned w1 pieces mon dd m d,
       clean_html date_str w = (Ret cleaned, w1) →
       Re.findall RotoWorldInjuries.regexp cleaned !! 0%nat = Some pieces →
       pieces !! 0%nat = Some mon → pieces !! 1%nat = Some dd →
       months !! mon = Some m → int_value dd = Some d →
       let y := if m >? RotoWorldInjuries.self_month s
                then RotoWorldInjuries.self_year s - 1
                else RotoWorldInjuries.self_year s in
       valid_datetime y m d 0 0 = true →
       RotoWorldInjuries.parse_date clean_html months s date_str w
       = (Ret (Some (Datetime y m d 0 0)), w1))
  ∧ (∀ clean_html teams date_str w w' dt cleaned pieces,
       RotoWorldInjuries.parse_date clean_html month_conversion
         (RotoWorldInjuries.Self teams 2024 3) date_str w
       = (Ret (Some dt), w') →
       clean_html date_str w = (Ret cleaned, w') →
       Re.findall RotoWorldInjuries.regexp cleaned !! 0%nat = Some pieces →
       (pieces !! 0%nat = Some "Dec" → year dt = 2023)
       ∧ (pieces !! 0%nat = Some "Feb" → year dt = 2024))
  ∧ run (RotoWorldInjuries.parse_date ret month_conversion
           (RotoWorldInjuries.Self ∅ 2024 3) "Dec 25")
    = Ret (Some (Datetime 2023 12 25 0 0))
  ∧ run (RotoWorldInjuries.parse_date ret month_conversion
           (RotoWorldInjuries.Self ∅ 2024 3) "Feb 10")
    = Ret (Some (Datetime 2024 2 10 0 0)).
Proof.
  split; [|split; [|split; [|split; reflexivity]]].
  - intros ch months s date_str w w' dt H.
    apply parse_date_inv in H. exact H.
  - intros ch months s date_str w cleaned w1 pieces mon dd m d
      Hc Hf H0 H1 Hm Hd y Hv.
    by eapply parse_date_resolves.
  - intros ch teams date_str w w' dt cleaned pieces H Hc Hf.
    apply parse_date_inv in H
      as (cleaned' & pieces' & mon & dd & Hc' & Hf' & H0 & _ & Hm & _ & Hy).
    rewrite Hc in Hc'. injection Hc' as <-.
    rewrite Hf in Hf'. injection Hf' as <-.
    unfold rollover in Hy. simpl in Hy.
    split; intros Hp; rewrite Hp in H0; injection H0 as <-.
    + change (month_conversion !! "Dec") with (Some 12) in Hm.
      injection Hm as Hm. rewrite <- Hm in Hy. exact Hy.
    + change (month_conversion !! "Feb") with (Some 2) in Hm.
      injection Hm as Hm. rewrite <- Hm in Hy. exact Hy.
Qed.

Lemma injuries_parse_date_year_witness :
  RotoWorldInjuries.parse_date ret month_conversion
    (RotoWorldInjuries.Self ∅ 2024 3) "Nov 7" w0
  = (Ret (Some (Datetime 2023 11 7 0 0)), w0)
  ∧ ∃ cleaned pieces mon dd,
      ret "Nov 7" w0 = (Ret cleaned, w0)
      ∧ Re.findall RotoWorldInjuries.regexp cleaned !! 0%nat = Some pieces
      ∧ pieces !! 0%nat = Some mon ∧ pieces !! 1%nat = Some dd
      ∧ month_conversion !! mon = Some 11
      ∧ int_value dd = Some 7
      ∧ 2023 = if 11 >? 3 then 2024 - 1 else 2024.
Proof.
  assert (H : RotoWorldInjuries.parse_date ret month_conversion
                (RotoWorldInjuries.Self ∅ 2024 3) "Nov 7" w0
              = (Ret (Some (Datetime 2023 11 7 0 0)), w0)) by reflexivity.
  split; [exact H|].
  exact (proj1 injuries_parse_date_year ret month_conversion
           (RotoWorldInjuries.Self ∅ 2024 3) "Nov 7" w0 w0
           (Datetime 2023 11 7 0 0) H).
Defined.

(** ** Dates with a time *)

Lemma valid_datetime_hour y m d h mi :
  valid_datetime y m d h mi = true → 0 ≤ h ≤ 23.
Proof.
  unfold valid_datetime. rewrite !andb_true_iff. lia.
Qed.

Section news_dates.
Import RotoWorldNews.

Variable months : gmap string Z.

Lemma news_parse_date_resolves date_str w pieces mon dd hh mm mer m d h mi :
  Re.findall regexp date_str !! 0%nat = Some pieces →
  pieces !! 0%nat = Some mon → pieces !! 1%nat = Some dd →
  pieces !! 2%nat = Some hh → pieces !! 3%nat = Some mm →
  pieces !! 4%nat = Some mer →
  months !! mon = Some m →
  int_value dd = Some d → int_value hh = Some h → int_value mm = Some mi →
  parse_date months date_str w
  = (if valid_datetime 2018 m d (hour_of_day mer h) mi
     then Ret (Some (Datetime 2018 m d (hour_of_day mer h) mi))
     else Ret None, w).
Proof.
  intros Hf H0 H1 H2 H3 H4 Hm Hd Hh Hmi. unfold parse_date, hour_of_day.
  unfold_py. rewrite Hf, H0, Hm, H1, H2, H3, Hd, Hh, Hmi, H4.
  by destruct (valid_datetime _ _ _ _ _).
Qed.

Lemma news_parse_date_inv date_str w w' dt :
  parse_date months date_str w = (Ret (Some dt), w') →
  ∃ pieces hh mer h,
    Re.findall regexp date_str !! 0%nat = Some pieces
    ∧ pieces !! 2%nat = Some hh ∧ pieces !! 4%nat = Some mer
    ∧ int_value hh = Some h
    ∧ hour dt = hour_of_day mer h
    ∧ year dt = 2018
    ∧ valid_datetime (year dt) (month dt) (day dt) (hour dt) (minute dt)
      = true.
Proof.
  unfold parse_date. intros H.
  apply try_except_inv in H as [H|(e & w1 & _ & H)]; [|discriminate].
  repeat (apply bind_inv in H as (? & ? & ?Hs & H)).
  unfold index, getitem, int in *.
  repeat match goal with
  | E : lift_option _ _ _ = (Ret _, _) |- _ =>
      apply lift_option_inv in E as [? ->]
  | E : mk_datetime _ _ _ _ _ _ = (Ret _, _) |- _ =>
      apply mk_datetime_inv in E as (? & -> & ->)
  end.
  injection H as <- <-.
  eexists _, _, _, _. repeat split; eauto.
Qed.

Lemma news_parse_date_silent date_str : silent (parse_date months date_str).
Proof.
  unfold parse_date, index, getitem, int.
  apply silent_try_except; [|auto with silent].
  repeat (apply silent_bind; [auto with silent|intros ?]).
  auto with silent.
Qed.

Lemma news_parse_date_total date_str w :
  ∃ o, parse_date months date_str w = (Ret o, w).
Proof.
  destruct (parse_date months date_str w) as [r w'] eqn:E.
  pose proof (news_parse_date_silent _ _ _ _ E) as ->.
  revert E. unfold parse_date, try_except.
  match goal with |- context [match ?b with _ => _ end] =>
    destruct b as [[o|e] w1] end; unfold ret; intros [= <- _]; eauto.
Qed.

End news_dates.

(** C2: [RotoWorldNews.parse_date] gives every timestamp it resolves the
    year 2018, whatever the month of the description: "Dec 25 - 7:30 PM"
    and "Feb 10 - 9:05 AM" both land in 2018. *)
Theorem news_parse_date_year :
  (∀ months date_str w w' dt,
     RotoWorldNews.parse_date months date_str w = (Ret (Some dt), w') →
     year dt = 2018)
  ∧ run (RotoWorldNews.parse_date month_conversion "Dec 25 - 7:30 PM")
    = Ret (Some (Datetime 2018 12 25 19 30))
  ∧ run (RotoWorldNews.parse_date month_conversion "Feb 10 - 9:05 AM")
    = Ret (Some (Datetime 2018 2 10 9 5)).
Proof.
  split; [|split; reflexivity].
  intros months date_str w w' dt H.
  apply news_parse_date_inv in H as (? & ? & ? & ? & _ & _ & _ & _ & _ & H & _).
  exact H.
Qed.

Lemma news_parse_date_year_witness :
  RotoWorldNews.parse_date month_conversion "Dec 25 - 7:30 PM" w0
  = (Ret (Some (Datetime 2018 12 25 19 30)), w0)
  ∧ year (Datetime 2018 12 25 19 30) = 2018.
Proof.
  assert (H : RotoWorldNews.parse_date month_conversion "Dec 25 - 7:30 PM" w0
              = (Ret (Some (Datetime 2018 12 25 19 30)), w0)) by reflexivity.
  split; [exact H|].
  exact (proj1 news_parse_date_year month_conversion "Dec 25 - 7:30 PM"
           w0 w0 (Datetime 2018 12 25 19 30) H).
Defined.

(** C5: for a description with a time, [RotoWorldNews.parse_date] hands
    to the timestamp the hour h + 12 when the marker is PM and the hour h
    as parsed when it is AM, with no special case for 12: "12:30 AM" gives
    hour 12, and a timestamp that comes out has exactly that hour. *)
Theorem news_parse_date_hour :
  (∀ months date_str w pieces mon dd hh mm mer m d h mi,
     Re.findall RotoWorldNews.regexp date_str !! 0%nat = Some pieces →
     pieces !! 0%nat = Some mon → pieces !! 1%nat = Some dd →
     pieces !! 2%nat = Some hh → pieces !! 3%nat = Some mm →
     pieces !! 4%nat = Some mer →
     months !! mon = Some m →
     int_value dd = Some d → int_value hh = Some h → int_value mm = Some mi →
     (mer = "PM" →
      RotoWorldNews.parse_date months date_str w
      = (if valid_datetime 2018 m d (h + 12) mi
         then Ret (Some (Datetime 2018 m d (h + 12) mi))
         else Ret None, w))
     ∧ (mer = "AM" →
        RotoWorldNews.parse_date months date_str w
        = (if valid_datetime 2018 m d h mi
           then Ret (Some (Datetime 2018 m d h mi))
           else Ret None, w)))
  ∧ (∀ months date_str w w' dt,
       RotoWorldNews.parse_date months date_str w = (Ret (Some dt), w') →
       ∃ pieces hh mer h,
         Re.findall RotoWorldNews.regexp date_str !! 0%nat = Some pieces
         ∧ pieces !! 2%nat = Some hh ∧ pieces !! 4%nat = Some mer
         ∧ int_value hh = Some h
         ∧ hour dt = if String.eqb mer "PM" then h + 12 else h)
  ∧ run (RotoWorldNews.parse_date month_conversion "Dec 25 - 7:30 PM")
    = Ret (Some (Datetime 2018 12 25 19 30))
  ∧ run (RotoWorldNews.parse_date month_conversion "Dec 25 - 11:59 PM")
    = Ret (Some (Datetime 2018 12 25 23 59))
  ∧ run (RotoWorldNews.parse_date month_conversion "Dec 25 - 12:30 AM")
    = Ret (Some (Datetime 2018 12 25 12 30)).
Proof.
  split; [|split; [|repeat split; reflexivity]].
  - intros months date_str w pieces mon dd hh mm mer m d h mi
      Hf H0 H1 H2 H3 H4 Hm Hd Hh Hmi.
    pose proof (news_parse_date_resolves months date_str w _ _ _ _ _ _ _ _ _ _
                  Hf H0 H1 H2 H3 H4 Hm Hd Hh Hmi) as E.
    split; intros ->; exact E.
  - intros months date_str w w' dt H.
    apply news_parse_date_inv in H
      as (pieces & hh & mer & h & ? & ? & ? & ? & ? & _).
    by exists pieces, hh, mer, h.
Qed.

Lemma news_parse_date_hour_witness :
  RotoWorldNews.parse_date month_conversion "Jan 3 - 1:05 PM" w0
  = (Ret (Some (Datetime 2018 1 3 13 5)), w0).
Proof.
  refine (proj1 (proj1 news_parse_date_hour month_conversion "Jan 3 - 1:05 PM"
            w0 ["Jan"; "3"; "1"; "05"; "PM"] "Jan" "3" "1" "05" "PM" 1 3 1 5
            _ _ _ _ _ _ _ _ _ _) _); reflexivity.
Defined.

(** C10: when the parsed hour is 12 and the marker is PM,
    [RotoWorldNews.parse_date] returns None and raises nothing: the hour
    handed to the constructor is 24, which it refuses, and the [except]
    clause turns the error into None. *)
Theorem news_parse_date_noon :
  ∀ months date_str w pieces hh,
    Re.findall RotoWorldNews.regexp date_str !! 0%nat = Some pieces →
    pieces !! 2%nat = Some hh →
    int_value hh = Some 12 →
    pieces !! 4%nat = Some "PM" →
    RotoWorldNews.parse_date months date_str w = (Ret None, w)
    ∧ ∀ y m d mi w1, mk_datetime y m d (12 + 12) mi w1 = (Raise ValueError, w1).
Proof.
  intros months date_str w pieces hh Hf H2 Hh H4. split.
  - destruct (news_parse_date_total months date_str w) as [[dt|] E]; [|done].
    exfalso.
    apply news_parse_date_inv in E
      as (pieces' & hh' & mer & h & Hf' & H2' & H4' & Hh' & Hhour & _ & Hv).
    simplify_eq. apply valid_datetime_hour in Hv.
    rewrite Hhour in Hv. unfold hour_of_day in Hv. simpl in Hv. lia.
  - intros y m d mi w1. unfold mk_datetime.
    destruct (valid_datetime y m d (12 + 12) mi) eqn:Hv; [|done].
    apply valid_datetime_hour in Hv. lia.
Qed.

Lemma news_parse_date_noon_witness :
  RotoWorldNews.parse_date month_conversion "Dec 25 - 12:30 PM" w0
  = (Ret None, w0).
Proof.
  refine (proj1 (news_parse_date_noon month_conversion "Dec 25 - 12:30 PM" w0
            ["Dec"; "25"; "12"; "30"; "PM"] "12" _ _ _ _)); reflexivity.
Defined.

(** ** Teams *)

(** C3, as the code has it: on a label that is not a key of the table no
    [convert_team] raises; those of [DailyNBALineups] and [RotoWorldNews]
    print a line and return None, those of [RotoWorldInjuries] and
    [OddsShark] print a line and return the label itself. *)
Theorem convert_team_miss :
  ∀ (table : gmap string string) year month team w,
    table !! team = None →
    DailyNBALineups.convert_team table team w
    = (Ret None, printed w ("Failed converting team name: " +:+ team))
    ∧ RotoWorldNews.convert_team table team w
      = (Ret None, printed w ("Failed converting team name: " +:+ team))
    ∧ RotoWorldInjuries.convert_team
        (RotoWorldInjuries.Self table year month) team w
      = (Ret (Some team),
         printed w ("Warning: Failed converting team name: " +:+ team +:+ "."))
    ∧ OddsShark.convert_team table team w
      = (Ret (Some team),
         printed w ("Warning: Failed to clean " +:+ team
                    +:+ " to nba_code form.")).
Proof.
  intros table y m team w H.
  unfold DailyNBALineups.convert_team, RotoWorldNews.convert_team,
    RotoWorldInjuries.convert_team, OddsShark.convert_team, try_except.
  simpl RotoWorldInjuries.team_conversion.
  rewrite !(bind_raise _ _ KeyError w w) by (by apply getitem_None).
  repeat split.
Qed.

Lemma convert_team_miss_witness :
  DailyNBALineups.convert_team {["Lakers" := "LAL"]} "Sonics" w0
  = (Ret None, printed w0 "Failed converting team name: Sonics").
Proof.
  refine (proj1 (convert_team_miss {["Lakers" := "LAL"]} 2024 3 "Sonics" w0 _)).
  reflexivity.
Defined.

(** C3, as stated, fails for [RotoWorldInjuries.convert_team]: on a label
    missing from the table it returns the label, not None. *)
Lemma injuries_convert_team_not_None :
  ¬ (∀ s team w,
       RotoWorldInjuries.team_conversion s !! team = None →
       ∃ w', RotoWorldInjuries.convert_team s team w = (Ret None, w')).
Proof.
  intros H.
  destruct (H (RotoWorldInjuries.Self {["Los Angeles Lakers" := "LAL"]} 2024 3)
              "Seattle SuperSonics" w0) as [w' E]; [reflexivity|].
  vm_compute in E. discriminate E.
Qed.

(** ** The short-name detector *)

Section detector.
Import OddsShark.

Variable team_conversion : gmap string string.

Lemma labels_length teams : length (labels teams) = (2 * length teams)%nat.
Proof.
  induction teams as [|[a b] teams IH]; [done|].
  change (labels ((a, b) :: teams)) with (a :: b :: labels teams).
  simpl length. rewrite IH. lia.
Qed.

Lemma matching_le teams : (matching team_conversion teams ≤ 2 * length teams)%nat.
Proof.
  unfold matching. rewrite <- labels_length. apply List.filter_length_le.
Qed.

Lemma count_loop teams acc :
  fold_left (count_step team_conversion) teams acc
  = acc + Z.of_nat (matching team_conversion teams).
Proof.
  revert acc. induction teams as [|[a b] teams IH]; intros acc.
  - unfold matching. simpl. lia.
  - simpl fold_left. rewrite IH. unfold matching.
    change (labels ((a, b) :: teams)) with (a :: b :: labels teams).
    unfold count_step. simpl List.filter.
    destruct (contains team_conversion a), (contains team_conversion b);
      simpl; lia.
Qed.

(** On a batch that is not empty the detector compares twice the number
    of matching labels with the number of labels. *)
Lemma detector_nonempty teams w :
  teams ≠ [] →
  teams_provided_in_short_name team_conversion teams w
  = (Ret (Z.of_nat (length (labels teams)) <? 2 * Z.of_nat (matching team_conversion teams)),
     w).
Proof.
  intros Hne. unfold teams_provided_in_short_name, truediv.
  rewrite count_loop, labels_length.
  assert (0 < length teams)%nat by (destruct teams; simpl; [done|lia]).
  destruct (Z.of_nat (length teams) * 2 =? 0) eqn:E; [lia|].
  unfold mbind, Py_bind, bind, ret. do 2 f_equal.
  unfold Qle_bool. simpl Qnum. simpl Qden.
  rewrite Z2Pos.id by lia.
  destruct (Z.leb_spec ((0 + Z.of_nat (matching team_conversion teams)) * 2)
              (1 * (Z.of_nat (length teams) * 2)));
    destruct (Z.ltb_spec (Z.of_nat (2 * length teams))
                (2 * Z.of_nat (matching team_conversion teams))); simpl; lia.
Qed.

Lemma detector_empty w :
  teams_provided_in_short_name team_conversion [] w
  = (Raise ZeroDivisionError, w).
Proof. reflexivity. Qed.

End detector.

(** C6: when strictly more than half of the labels of a batch are keys of
    the table, [teams_provided_in_short_name] returns True; so it does
    when 3 of the 4 labels of a batch of two pairs are keys. *)
Theorem detector_majority :
  (∀ table teams w,
     (length (labels teams) < 2 * matching table teams)%nat →
     OddsShark.teams_provided_in_short_name table teams w = (Ret true, w))
  ∧ (∀ table teams w,
       length (labels teams) = 4%nat → matching table teams = 3%nat →
       OddsShark.teams_provided_in_short_name table teams w = (Ret true, w))
  ∧ run (OddsShark.teams_provided_in_short_name
           {["Chicago" := "CHI"; "LA Lakers" := "LAL"; "Boston" := "BOS"]}
           [("Chicago", "LA Lakers"); ("NYK", "Boston")])
    = Ret true.
Proof.
  assert (Hmaj : ∀ table teams w,
            (length (labels teams) < 2 * matching table teams)%nat →
            OddsShark.teams_provided_in_short_name table teams w
            = (Ret true, w)).
  { intros table teams w H.
    rewrite detector_nonempty.
    - do 2 f_equal. apply Z.ltb_lt. lia.
    - intros ->. simpl in H. lia. }
  split; [exact Hmaj|]. split; [|reflexivity].
  intros table teams w H4 H3. apply Hmaj. lia.
Qed.

Lemma detector_majority_witness :
  OddsShark.teams_provided_in_short_name
    {["Chicago" := "CHI"; "LA Lakers" := "LAL"]}
    [("Chicago", "LA Lakers"); ("NYK", "Chicago"); ("BOS", "LA Lakers")] w0
  = (Ret true, w0).
Proof.
  refine (proj1 detector_majority _ _ w0 _).
  vm_compute. lia.
Defined.

(** C9: [teams_provided_in_short_name] returns a boolean on every batch
    that is not empty, and on the empty batch the division by the number
    of labels raises [ZeroDivisionError]. *)
Theorem detector_total_on_nonempty :
  (∀ table teams w,
     teams ≠ [] →
     ∃ b, OddsShark.teams_provided_in_short_name table teams w = (Ret b, w))
  ∧ (∀ table w,
       OddsShark.teams_provided_in_short_name table [] w
       = (Raise ZeroDivisionError, w)
       ∧ OddsShark.truediv 0 (Z.of_nat (length (@nil (string * string))) * 2) w
         = (Raise ZeroDivisionError, w)).
Proof.
  split.
  - intros table teams w H. eexists. by apply detector_nonempty.
  - intros table w. split; reflexivity.
Qed.

Lemma detector_total_on_nonempty_witness :
  ∃ b, OddsShark.teams_provided_in_short_name
         {["Chicago" := "CHI"]} [("CHI", "LAL")] w0 = (Ret b, w0).
Proof.
  refine (proj1 detector_total_on_nonempty _ [("CHI", "LAL")] w0 _).
  discriminate.
Defined.

(** ** Names *)

Section names.

Variable clean : string → M string.

Lemma convert_name_returns name print_warning w v w1 :
  clean name w = (Ret v, w1) →
  convert_name clean name print_warning w = (Ret v, w1).
Proof. intros H. unfold convert_name, try_except. by rewrite H. Qed.

(** When [clean] raises, the [except] clause gives the name back as it
    came, after the warning if one was asked for. *)
Lemma convert_name_except name print_warning w e w1 :
  clean name w = (Raise e, w1) →
  convert_name clean name print_warning w
  = (Ret name,
     if print_warning
     then World (stdout w1
                 ++ ["Warning: convert_name() failed to convert "
                     +:+ name +:+ "."])
                (unhandled_names w1)
     else w1).
Proof.
  intros H. unfold convert_name, try_except. rewrite H.
  by destruct print_warning.
Qed.

Lemma convert_name_total name print_warning w :
  ∃ v w', convert_name clean name print_warning w = (Ret v, w').
Proof.
  destruct (clean name w) as [[v|e] w1] eqn:E.
  - erewrite convert_name_returns by done. eauto.
  - erewrite convert_name_except by done. eauto.
Qed.

End names.

(** With the resolver of the spec, which never raises, [convert_name]
    returns what the resolver returns: on a name whose normalised form has
    no entry in the alias table, the normalised form, the raw name joining
    the log of unresolved names. *)
Lemma convert_name_spec_resolver normalize aliases name print_warning w :
  aliases !! normalize name = None →
  ∃ w', convert_name (NameConverter_clean normalize aliases)
          name print_warning w
        = (Ret (normalize name), w')
        ∧ stdout w' = stdout w
        ∧ name ∈ unhandled_names w'.
Proof.
  intros H. eexists. split; [|split].
  - apply convert_name_returns. unfold NameConverter_clean.
    rewrite H. reflexivity.
  - reflexivity.
  - simpl. case_decide; [done|]. apply elem_of_app. right.
    by apply list_elem_of_singleton.
Qed.




(** * Further properties *)

(** ** Salaries: what [convert_salary] can return *)

Lemma digit_val_range c : is_digit c = true → 0 ≤ digit_val c ≤ 9.
Proof.
  unfold is_digit, digit_val. rewrite andb_true_iff, !Z.leb_le. lia.
Qed.

Lemma number_range ds :
  str_forall is_digit ds = true → (String.length ds ≤ 2)%nat →
  0 ≤ number ds ≤ 99.
Proof.
  destruct ds as [|a [|b [|c ds]]]; simpl; intros Hd Hl; try lia.
  - unfold number. simpl. lia.
  - rewrite andb_true_r in Hd. apply digit_val_range in Hd.
    unfold number. simpl. lia.
  - apply andb_true_iff in Hd as [Ha Hb]. rewrite andb_true_r in Hb.
    apply digit_val_range in Ha, Hb. unfold number. simpl. lia.
Qed.

Lemma convert_salary_found s w ds h rest :
  Re.search DailyNBALineups.regexp s = Some ([ds; String h ""], rest) →
  well_formed ds h →
  DailyNBALineups.convert_salary s w
  = (Ret (number ds * 1000 + digit_val h * 100), w).
Proof.
  intros Hs (Hds & Hlen & Hh). unfold DailyNBALineups.convert_salary.
  erewrite bind_ret; [|apply index_Some; by rewrite findall_first, Hs].
  erewrite bind_ret; [|by apply index_Some].
  erewrite bind_ret; [|by apply index_Some].
  erewrite bind_ret;
    [|apply int_Some, int_value_number;
      [done|destruct ds; simpl in *; [lia|done]]].
  erewrite bind_ret;
    [|apply int_Some, int_value_number; [by simpl; rewrite Hh|done]].
  unfold number at 2. simpl. reflexivity.
Qed.

(** X1: [convert_salary] has two outcomes only.  It raises [IndexError],
    or it returns a multiple of 100 between 0 and 99900; no other
    exception leaves it, and the world is as it was. *)
Theorem convert_salary_outcomes :
  ∀ s w,
    DailyNBALineups.convert_salary s w = (Raise IndexError, w)
    ∨ ∃ n, DailyNBALineups.convert_salary s w = (Ret n, w)
           ∧ 0 ≤ n ≤ 99900 ∧ n mod 100 = 0.
Proof.
  intros s w.
  destruct (Re.search DailyNBALineups.regexp s) as [[caps rest]|] eqn:E.
  - right. pose proof E as E'.
    apply search_sound in E' as (pre & s' & -> & Hm).
    apply match_at_sound in Hm as (ds & h & -> & Hwf & ->).
    eexists. split; [by eapply convert_salary_found|].
    destruct Hwf as (Hds & Hlen & Hh).
    pose proof (number_range ds Hds ltac:(lia)).
    pose proof (digit_val_range h Hh).
    split; [lia|].
    replace (number ds * 1000 + digit_val h * 100)
      with ((number ds * 10 + digit_val h) * 100) by lia.
    apply Z_mod_mult.
  - left. by apply convert_salary_no_match.
Qed.

Lemma class_splits_miss p lo hi c s :
  p c = false → Re.class_splits p (S lo) (S hi) (String c s) = [].
Proof. intros H. simpl. by rewrite H. Qed.

Lemma match_at_other_start c s :
  is_char "$" c = false → Re.match_at DailyNBALineups.regexp (String c s) = None.
Proof.
  intros H. unfold Re.match_at, DailyNBALineups.regexp.
  cbn [Re.matches Re.atom_splits]. by rewrite class_splits_miss.
Qed.

(** X2: the first shorthand of the text is the one decoded: what stands
    before it, as long as it holds no currency marker, and whatever
    follows it, do not change the result. *)
Theorem convert_salary_leftmost :
  ∀ pre ds h post w,
    str_forall (λ c, negb (is_char "$" c)) pre = true →
    well_formed ds h →
    DailyNBALineups.convert_salary (pre +:+ shorthand ds h post) w
    = (Ret (number ds * 1000 + digit_val h * 100), w).
Proof.
  intros pre ds h post w Hpre Hwf.
  apply convert_salary_found with (rest := post); [|done].
  induction pre as [|c pre IH].
  - rewrite append_nil. by apply search_here, match_at_shorthand.
  - simpl in Hpre. apply andb_true_iff in Hpre as [Hc Hpre].
    rewrite append_cons. cbn [Re.search].
    rewrite match_at_other_start by (by apply negb_true_iff). by apply IH.
Qed.

Lemma convert_salary_leftmost_witness :
  DailyNBALineups.convert_salary ("FD: " +:+ shorthand "8" "7" " / $10.0K") w0
  = (Ret 8700, w0).
Proof.
  refine (convert_salary_leftmost "FD: " "8" "7"%char " / $10.0K" w0 _ _).
  - reflexivity.
  - repeat split; simpl; lia.
Defined.

(** ** The shape of what the date patterns capture *)

Lemma strip_prefix_sound w s r : Re.strip_prefix w s = Some r → s = w +:+ r.
Proof.
  revert s. induction w as [|a w IH]; intros s; simpl.
  - by intros [= ->].
  - destruct s as [|b s]; [discriminate|].
    destruct (Ascii.eqb a b) eqn:E; [|discriminate].
    apply Ascii.eqb_eq in E as ->. intros H. apply IH in H as ->.
    by rewrite append_cons.
Qed.

Lemma word_splits_sound s w m r :
  In (m, r) (Re.word_splits s w) → m = w ∧ s = w +:+ r.
Proof.
  unfold Re.word_splits.
  destruct (Re.strip_prefix w s) as [r'|] eqn:E; [|intros []].
  intros [[= <- <-]|[]]. split; [done|]. by apply strip_prefix_sound.
Qed.

Lemma int_value_digit_run lo hi ds :
  digit_run (S lo) hi ds → ∃ n, int_value ds = Some n ∧ 0 ≤ n.
Proof.
  intros [Hd Hl]. exists (number ds). split.
  - apply int_value_number; [done|]. intros ->. simpl in Hl. lia.
  - unfold number. clear Hl.
    assert (H : ∀ acc, 0 ≤ acc →
              0 ≤ fold_left (λ acc c, 10 * acc + digit_val c)
                    (list_ascii_of_string ds) acc); [|by apply H].
    induction ds as [|c ds IH]; intros acc Hacc; simpl; [done|].
    simpl in Hd. apply andb_true_iff in Hd as [Hc Hd].
    apply IH; [done|]. apply digit_val_range in Hc. lia.
Qed.

Lemma injuries_match_shape s caps rest :
  Re.match_at RotoWorldInjuries.regexp s = Some (caps, rest) →
  ∃ mon dd, caps = [mon; dd] ∧ month_word mon ∧ digit_run 1 2 dd.
Proof.
  intros H. apply head_In in H. unfold RotoWorldInjuries.regexp in H.
  cbn [Re.matches Re.atom_splits Re.atoms_splits] in H.
  split_in. simplify_eq. one_char.
  rewrite ?append_empty_r, ?append_cons, ?append_nil.
  eexists _, _. split; [reflexivity|]. split.
  - eexists _, _. split; [reflexivity|]. repeat split; auto; lia.
  - split; auto.
Qed.

Lemma injuries_pieces_shape s pieces :
  Re.findall RotoWorldInjuries.regexp s !! 0%nat = Some pieces →
  ∃ mon dd, pieces = [mon; dd] ∧ month_word mon ∧ digit_run 1 2 dd.
Proof.
  rewrite findall_first.
  destruct (Re.search RotoWorldInjuries.regexp s) as [[caps rest]|] eqn:E;
    [|discriminate].
  intros [= <-]. apply search_sound in E as (pre & s' & _ & Hm).
  by eapply injuries_match_shape.
Qed.

Lemma news_match_shape s caps rest :
  Re.match_at RotoWorldNews.regexp s = Some (caps, rest) →
  ∃ mon dd hh mm mer,
    caps = [mon; dd; hh; mm; mer]
    ∧ month_word mon ∧ digit_run 1 2 dd ∧ digit_run 1 2 hh
    ∧ digit_run 2 2 mm ∧ (mer = "AM" ∨ mer = "PM").
Proof.
  intros H. apply head_In in H. unfold RotoWorldNews.regexp in H.
  cbn [Re.matches Re.atom_splits Re.atoms_splits] in H.
  split_in.
  match goal with
  | E : In _ (flat_map (Re.word_splits _) _) |- _ =>
      cbn [flat_map] in E; rewrite !in_app_iff in E;
      destruct E as [E|[E|[]]]; apply word_splits_sound in E as [-> _]
  end;
    simplify_eq; one_char;
    rewrite ?append_empty_r, ?append_cons, ?append_nil;
    eexists _, _, _, _, _; (split; [reflexivity|]);
    (split; [eexists _, _; split; [reflexivity|]; repeat split; auto; lia|]);
    repeat split; auto; lia.
Qed.

Lemma news_pieces_shape s pieces :
  Re.findall RotoWorldNews.regexp s !! 0%nat = Some pieces →
  ∃ mon dd hh mm mer,
    pieces = [mon; dd; hh; mm; mer]
    ∧ month_word mon ∧ digit_run 1 2 dd ∧ digit_run 1 2 hh
    ∧ digit_run 2 2 mm ∧ (mer = "AM" ∨ mer = "PM").
Proof.
  rewrite findall_first.
  destruct (Re.search RotoWorldNews.regexp s) as [[caps rest]|] eqn:E;
    [|discriminate].
  intros [= <-]. apply search_sound in E as (pre & s' & _ & Hm).
  by eapply news_match_shape.
Qed.

(** ** Dates: every way [parse_date] can end *)

(** X3: [RotoWorldInjuries.parse_date] never raises, and it returns None
    with exactly one warning line in four cases only: the cleaner raised,
    the text holds no date, the month word is not in the table, or the
    constructor refused year, month and day.  Converting the day never
    fails, and a timestamp comes back without any output. *)
Theorem injuries_parse_date_cases :
  ∀ clean_html months s date_str w,
    match clean_html date_str w with
    | (Raise _, w1) =>
        RotoWorldInjuries.parse_date clean_html months s date_str w
        = (Ret None, printed w1 (date_warning date_str))
    | (Ret cleaned, w1) =>
        match Re.findall RotoWorldInjuries.regexp cleaned !! 0%nat with
        | None =>
            RotoWorldInjuries.parse_date clean_html months s date_str w
            = (Ret None, printed w1 (date_warning cleaned))
        | Some pieces =>
            ∃ mon dd d,
              pieces = [mon; dd] ∧ int_value dd = Some d
              ∧ RotoWorldInjuries.parse_date clean_html months s date_str w
                = match months !! mon with
                  | None => (Ret None, printed w1 (date_warning cleaned))
                  | Some m =>
                      if valid_datetime (rollover s m) m d 0 0
                      then (Ret (Some (Datetime (rollover s m) m d 0 0)), w1)
                      else (Ret None, printed w1 (date_warning cleaned))
                  end
        end
    end.
Proof.
  intros ch months s date_str w. unfold RotoWorldInjuries.parse_date.
  destruct (ch date_str w) as [[cleaned|e] w1]; [|reflexivity].
  destruct (Re.findall RotoWorldInjuries.regexp cleaned !! 0%nat)
    as [pieces|] eqn:Hf.
  - destruct (injuries_pieces_shape _ _ Hf) as (mon & dd & -> & _ & Hdd).
    destruct (int_value_digit_run _ _ _ Hdd) as (d & Hd & _).
    exists mon, dd, d. split; [done|]. split; [done|].
    unfold_py. rewrite Hf. simpl. unfold rollover.
    destruct (months !! mon) as [m|]; [|reflexivity].
    rewrite Hd. by destruct (valid_datetime _ _ _ _ _).
  - unfold_py. by rewrite Hf.
Qed.

Lemma parse_date_inv_valid clean_html months s date_str w w' dt :
  RotoWorldInjuries.parse_date clean_html months s date_str w
  = (Ret (Some dt), w') →
  valid_datetime (year dt) (month dt) (day dt) 0 0 = true.
Proof.
  unfold RotoWorldInjuries.parse_date. intros H.
  destruct (clean_html date_str w) as [[cleaned|e] w1];
    [|unfold_py; discriminate].
  apply try_except_inv in H as [H|(e & w2 & _ & H)];
    [|unfold_py; discriminate].
  repeat (apply bind_inv in H as (? & ? & ?Hs & H)).
  match goal with
  | E : mk_datetime _ _ _ _ _ _ = (Ret _, _) |- _ =>
      apply mk_datetime_inv in E as (Hv & -> & ->)
  end.
  injection H as <- <-. exact Hv.
Qed.

(** X4: with a reference month between 1 and 12, a timestamp resolved by
    [RotoWorldInjuries.parse_date] lies in the twelve months that end with
    the reference month: never after it, and less than a year before. *)
Theorem injuries_parse_date_window :
  ∀ clean_html months s date_str w w' dt,
    1 ≤ RotoWorldInjuries.self_month s ≤ 12 →
    RotoWorldInjuries.parse_date clean_html months s date_str w
    = (Ret (Some dt), w') →
    let reference :=
      12 * RotoWorldInjuries.self_year s + RotoWorldInjuries.self_month s in
    reference - 12 < 12 * year dt + month dt ≤ reference.
Proof.
  intros ch months s date_str w w' dt HM H.
  pose proof (parse_date_inv_valid _ _ _ _ _ _ _ H) as Hv.
  apply parse_date_inv in H as (_ & _ & _ & _ & _ & _ & _ & _ & _ & _ & Hy).
  unfold valid_datetime in Hv. rewrite !andb_true_iff, !Z.leb_le in Hv.
  unfold rollover in Hy. simpl.
  destruct (Z.gtb_spec (month dt) (RotoWorldInjuries.self_month s)); lia.
Qed.

Lemma injuries_parse_date_window_witness :
  12 * 2024 + 3 - 12 < 12 * 2023 + 4 ≤ 12 * 2024 + 3.
Proof.
  refine (injuries_parse_date_window ret month_conversion
            (RotoWorldInjuries.Self ∅ 2024 3) "Apr 30" w0 w0
            (Datetime 2023 4 30 0 0) _ _).
  - simpl. lia.
  - reflexivity.
Defined.

(** X5: [RotoWorldNews.parse_date] never raises and prints nothing.  It
    returns None when the text holds no date with a time, when the month
    word is not in the table, or when the constructor refuses the fields;
    converting day, hour and minute never fails, and the marker is AM or
    PM. *)
Theorem news_parse_date_cases :
  ∀ months date_str w,
    match Re.findall RotoWorldNews.regexp date_str !! 0%nat with
    | None => RotoWorldNews.parse_date months date_str w = (Ret None, w)
    | Some pieces =>
        ∃ mon dd hh mm mer d h mi,
          pieces = [mon; dd; hh; mm; mer] ∧ (mer = "AM" ∨ mer = "PM")
          ∧ int_value dd = Some d ∧ int_value hh = Some h
          ∧ int_value mm = Some mi
          ∧ RotoWorldNews.parse_date months date_str w
            = (match months !! mon with
               | None => Ret None
               | Some m =>
                   if valid_datetime 2018 m d (hour_of_day mer h) mi
                   then Ret (Some (Datetime 2018 m d (hour_of_day mer h) mi))
                   else Ret None
               end, w)
    end.
Proof.
  intros months date_str w.
  destruct (Re.findall RotoWorldNews.regexp date_str !! 0%nat)
    as [pieces|] eqn:Hf.
  - destruct (news_pieces_shape _ _ Hf)
      as (mon & dd & hh & mm & mer & -> & _ & Hdd & Hhh & Hmm & Hmer).
    destruct (int_value_digit_run _ _ _ Hdd) as (d & Hd & _).
    destruct (int_value_digit_run _ _ _ Hhh) as (h & Hh & _).
    destruct (int_value_digit_run _ _ _ Hmm) as (mi & Hmi & _).
    exists mon, dd, hh, mm, mer, d, h, mi. repeat (split; [done|]).
    destruct (months !! mon) as [m|] eqn:Hm.
    + by eapply news_parse_date_resolves.
    + unfold RotoWorldNews.parse_date. unfold_py. rewrite Hf. simpl.
      by rewrite Hm.
  - unfold RotoWorldNews.parse_date. unfold_py. by rewrite Hf.
Qed.

(** ** The short-name detector: ties and order *)

(** X6: on a batch that is not empty, [teams_provided_in_short_name]
    returns False as soon as the labels that are keys are at most half of
    the labels; a tie counts as code form. *)
Theorem detector_minority :
  ∀ table teams w,
    teams ≠ [] →
    (2 * matching table teams ≤ length (labels teams))%nat →
    OddsShark.teams_provided_in_short_name table teams w = (Ret false, w).
Proof.
  intros table teams w Hne H. rewrite detector_nonempty by done.
  do 2 f_equal. apply Z.ltb_ge. lia.
Qed.

Lemma detector_minority_witness :
  OddsShark.teams_provided_in_short_name
    {["Chicago" := "CHI"; "LA Lakers" := "LAL"]}
    [("Chicago", "LAL"); ("NYK", "LA Lakers")] w0
  = (Ret false, w0).
Proof.
  refine (detector_minority _ _ w0 _ _).
  - discriminate.
  - vm_compute. lia.
Defined.

Lemma matching_cons table a b teams :
  matching table ((a, b) :: teams)
  = ((if OddsShark.contains table a then 1 else 0)
     + (if OddsShark.contains table b then 1 else 0)
     + matching table teams)%nat.
Proof.
  unfold matching.
  change (labels ((a, b) :: teams)) with (a :: b :: labels teams).
  simpl List.filter.
  by destruct (OddsShark.contains table a), (OddsShark.contains table b).
Qed.

Lemma matching_perm table teams teams' :
  teams ≡ₚ teams' → matching table teams = matching table teams'.
Proof.
  induction 1 as [|[a b] l l' _ IH|[a b] [c d] l|l1 l2 l3 _ IH1 _ IH2].
  - done.
  - by rewrite !matching_cons, IH.
  - rewrite !matching_cons. lia.
  - by rewrite IH1.
Qed.

Lemma matching_swap table teams :
  matching table (swap_pairs teams) = matching table teams.
Proof.
  induction teams as [|[a b] teams IH]; [done|].
  change (swap_pairs ((a, b) :: teams)) with ((b, a) :: swap_pairs teams).
  rewrite !matching_cons, IH. lia.
Qed.

Lemma detector_by_count table teams teams' w :
  length teams = length teams' →
  matching table teams = matching table teams' →
  OddsShark.teams_provided_in_short_name table teams w
  = OddsShark.teams_provided_in_short_name table teams' w.
Proof.
  intros Hl Hm. unfold OddsShark.teams_provided_in_short_name.
  by rewrite !count_loop, Hl, Hm.
Qed.

(** X7: the verdict of [teams_provided_in_short_name], error included,
    depends neither on the order of the pairs nor on which team of a pair
    comes first. *)
Theorem detector_order_blind :
  ∀ table teams w,
    (∀ teams', teams ≡ₚ teams' →
       OddsShark.teams_provided_in_short_name table teams' w
       = OddsShark.teams_provided_in_short_name table teams w)
    ∧ OddsShark.teams_provided_in_short_name table (swap_pairs teams) w
      = OddsShark.teams_provided_in_short_name table teams w.
Proof.
  intros table teams w. split.
  - intros teams' Hp. apply detector_by_count.
    + symmetry. by apply Permutation_length.
    + symmetry. by apply matching_perm.
  - apply detector_by_count.
    + unfold swap_pairs. by rewrite length_map.
    + apply matching_swap.
Qed.

Lemma detector_order_blind_witness :
  OddsShark.teams_provided_in_short_name {["Chicago" := "CHI"]}
    [("NYK", "Chicago"); ("Chicago", "BOS")] w0
  = OddsShark.teams_provided_in_short_name {["Chicago" := "CHI"]}
      [("Chicago", "BOS"); ("NYK", "Chicago")] w0.
Proof.
  refine (proj1 (detector_order_blind {["Chicago" := "CHI"]}
                   [("Chicago", "BOS"); ("NYK", "Chicago")] w0) _ _).
  apply perm_swap.
Defined.

(** ** The rows of the lineups *)

Lemma convert_salary_cases s w :
  (DailyNBALineups.convert_salary s w = (Raise IndexError, w)
   ∧ run (DailyNBALineups.convert_salary s) = Raise IndexError)
  ∨ ∃ n, DailyNBALineups.convert_salary s w = (Ret n, w)
         ∧ run (DailyNBALineups.convert_salary s) = Ret n.
Proof.
  unfold run.
  destruct (Re.search DailyNBALineups.regexp s) as [[caps rest]|] eqn:E.
  - right. pose proof E as E'.
    apply search_sound in E' as (pre & s' & -> & Hm).
    apply match_at_sound in Hm as (ds & h & -> & Hwf & ->).
    eexists. split; [by eapply convert_salary_found|].
    by erewrite convert_salary_found.
  - left. by rewrite !convert_salary_no_match.
Qed.

Lemma for_each_pure {A B} (f : A → M B) (g : A → B) xs w :
  (∀ x, x ∈ xs → f x w = (Ret (g x), w)) →
  for_each f xs w = (Ret (map g xs), w).
Proof.
  induction xs as [|x xs IH]; intros H; [done|].
  cbn [for_each]. erewrite bind_ret; [|apply H; by left].
  erewrite bind_ret; [|apply IH; intros y Hy; apply H; by right].
  reflexivity.
Qed.

Section lineup_rows.
Import LineupRows.

Context {tag : Type}.
Variables (player_name position : tag → M string).
Variable salaries : tag → list string.
Variable cells : tag → M (list tag).
Variables (away_name home_name : tag → M string).
Variable team_tables : tag → M (list tag).

Lemma first_salary texts w :
  try_except
    (text ← index texts 0;
     salary ← DailyNBALineups.convert_salary text;
     ret (Some salary))
    (ret None) w
  = (Ret (salary_cell texts 0), w).
Proof.
  unfold try_except, salary_cell.
  destruct (texts !! 0%nat) as [text|] eqn:E.
  - erewrite bind_ret; [|by apply index_Some].
    destruct (convert_salary_cases text w) as [[H ->]|(n & H & ->)].
    + by erewrite bind_raise.
    + by erewrite bind_ret.
  - by erewrite bind_raise; [|by apply index_None].
Qed.

Lemma second_salary texts w :
  try_except_IndexError
    (text ← index texts 1;
     salary ← DailyNBALineups.convert_salary text;
     ret (Some salary))
    (ret None) w
  = (Ret (salary_cell texts 1), w).
Proof.
  unfold try_except_IndexError, salary_cell.
  destruct (texts !! 1%nat) as [text|] eqn:E.
  - erewrite bind_ret; [|by apply index_Some].
    destruct (convert_salary_cases text w) as [[H ->]|(n & H & ->)].
    + erewrite bind_raise; [|exact H]. reflexivity.
    + erewrite bind_ret by done. reflexivity.
  - by erewrite bind_raise; [|by apply index_None].
Qed.

Lemma starter_row td w n w1 p w2 :
  player_name td w = (Ret n, w1) →
  position td w1 = (Ret p, w2) →
  starter tag player_name position salaries td w
  = (Ret (Row n p (salary_cell (salaries td) 0) (salary_cell (salaries td) 1)
              None), w2).
Proof.
  intros Hn Hp. unfold starter.
  erewrite bind_ret by done. erewrite bind_ret by done.
  erewrite bind_ret by apply first_salary.
  erewrite bind_ret by apply second_salary.
  reflexivity.
Qed.

End lineup_rows.

Lemma salary_cell_None texts i :
  salary_cell texts i = None
  ↔ match texts !! i with
    | Some text => ¬ has_shorthand text
    | None => True
    end.
Proof.
  unfold salary_cell. destruct (texts !! i) as [text|]; [|done].
  destruct (convert_salary_cases text w0) as [[H ->]|(n & H & ->)].
  - split; [|done]. intros _. apply search_None_iff.
    destruct (Re.search DailyNBALineups.regexp text) as [[caps rest]|] eqn:E;
      [|done].
    pose proof E as E'.
    apply search_sound in E' as (pre & s' & _ & Hm).
    apply match_at_sound in Hm as (ds & h & _ & Hwf & ->).
    erewrite convert_salary_found in H by done. discriminate.
  - split; [done|]. intros Hno.
    rewrite convert_salary_no_match in H by (by apply search_None_iff).
    discriminate.
Qed.

Section lineup_tables.
Import LineupRows.

Context {tag : Type}.
Variables (player_name position : tag → M string).
Variable salaries : tag → list string.
Variable cells : tag → M (list tag).
Variables (away_name home_name : tag → M string).
Variable team_tables : tag → M (list tag).

(** The lookups of name and position answer [nm] and [ps] and leave the
    world alone. *)
Variables nm ps : tag → string.
Hypothesis player_name_found : ∀ td w, player_name td w = (Ret (nm td), w).
Hypothesis position_found : ∀ td w, position td w = (Ret (ps td), w).

Lemma team_starters_of table tds w w1 :
  cells table w = (Ret tds, w1) →
  _extract_team_starters tag player_name position salaries cells table w
  = (Ret (map (λ td, starter_row_of (nm td) (ps td) (salaries td) None) tds),
     w1).
Proof.
  intros Hc. unfold _extract_team_starters.
  erewrite bind_ret by done.
  apply for_each_pure. intros td _.
  eapply starter_row; [apply player_name_found|apply position_found].
Qed.

(** X8: when the name and the position of every player cell are found,
    [_extract_team_starters] returns one row per cell, in the order of the
    cells, and no salary link can make it fail: a salary cell is NaN
    exactly when its link is missing or holds no salary shorthand. *)
Theorem team_starters_rows :
  ∀ table tds w w1,
    cells table w = (Ret tds, w1) →
    _extract_team_starters tag player_name position salaries cells table w
    = (Ret (map (λ td, starter_row_of (nm td) (ps td) (salaries td) None) tds),
       w1)
    ∧ ∀ td i,
        salary_cell (salaries td) i = None
        ↔ match salaries td !! i with
          | Some text => ¬ has_shorthand text
          | None => True
          end.
Proof.
  intros table tds w w1 Hc. split.
  - by apply team_starters_of.
  - intros td i. apply salary_cell_None.
Qed.

(** X9: with two team tables or more, [_extract_game_starters] returns
    the rows of the first table labelled with the away team, then those of
    the second labelled with the home team; further tables are not
    read. *)
Theorem game_starters_rows :
  ∀ game away home tables t0 t1 tds0 tds1 w,
    away_name game w = (Ret away, w) →
    home_name game w = (Ret home, w) →
    team_tables game w = (Ret tables, w) →
    tables !! 0%nat = Some t0 → tables !! 1%nat = Some t1 →
    cells t0 w = (Ret tds0, w) → cells t1 w = (Ret tds1, w) →
    _extract_game_starters tag player_name position salaries cells
      away_name home_name team_tables game w
    = (Ret (map (λ td, starter_row_of (nm td) (ps td) (salaries td)
                         (Some away)) tds0
            ++ map (λ td, starter_row_of (nm td) (ps td) (salaries td)
                            (Some home)) tds1)%list, w).
Proof.
  intros game away home tables t0 t1 tds0 tds1 w Ha Hh Ht H0 H1 Hc0 Hc1.
  unfold _extract_game_starters.
  erewrite bind_ret by done. erewrite bind_ret by done.
  erewrite bind_ret by done.
  erewrite bind_ret by (by apply index_Some).
  erewrite bind_ret by (by apply team_starters_of).
  erewrite bind_ret by (by apply index_Some).
  erewrite bind_ret by (by apply team_starters_of).
  by rewrite !map_map.
Qed.

(** X10: with fewer than two team tables [_extract_game_starters] raises
    [IndexError], and the rows already read from a first table are lost
    with it. *)
Theorem game_starters_missing_table :
  ∀ game away home tables w,
    away_name game w = (Ret away, w) →
    home_name game w = (Ret home, w) →
    team_tables game w = (Ret tables, w) →
    (∀ t, t ∈ tables → ∃ tds, cells t w = (Ret tds, w)) →
    (length tables < 2)%nat →
    _extract_game_starters tag player_name position salaries cells
      away_name home_name team_tables game w
    = (Raise IndexError, w).
Proof.
  intros game away home tables w Ha Hh Ht Hcells Hlen.
  unfold _extract_game_starters.
  erewrite bind_ret by done. erewrite bind_ret by done.
  erewrite bind_ret by done.
  destruct tables as [|t0 [|t1 tables]]; simpl in Hlen; try lia.
  - by erewrite bind_raise; [|by apply index_None].
  - destruct (Hcells t0) as [tds Hc]; [by left|].
    erewrite bind_ret by (by apply index_Some).
    erewrite bind_ret by (by apply team_starters_of).
    by erewrite bind_raise; [|by apply index_None].
Qed.

End lineup_tables.

Lemma team_starters_rows_witness :
  LineupRows._extract_team_starters node
    (λ td, ret (node_label td)) (λ _, ret "G") node_texts
    (λ t, ret (node_children t)) bulls_table w0
  = (Ret [LineupRows.Row "Zach LaVine" "G" (Some 8700) (Some 10000) None;
          LineupRows.Row "Coby White" "G" None None None], w0).
Proof.
  refine (proj1 (team_starters_rows
            (λ td, ret (node_label td)) (λ _, ret "G") node_texts
            (λ t, ret (node_children t)) node_label (λ _, "G") _ _
            bulls_table (node_children bulls_table) w0 w0 _));
    reflexivity.
Defined.

Lemma game_starters_rows_witness :
  LineupRows._extract_game_starters node
    (λ td, ret (node_label td)) (λ _, ret "G") node_texts
    (λ t, ret (node_children t)) (λ _, ret "Bulls") (λ _, ret "Lakers")
    (λ t, ret (node_children t))
    (Node "game" [] [bulls_table; lakers_table]) w0
  = (Ret [LineupRows.Row "Zach LaVine" "G" (Some 8700) (Some 10000)
            (Some "Bulls");
          LineupRows.Row "Coby White" "G" None None (Some "Bulls");
          LineupRows.Row "LeBron James" "G" None None (Some "Lakers")], w0).
Proof.
  refine (game_starters_rows
            (λ td, ret (node_label td)) (λ _, ret "G") node_texts
            (λ t, ret (node_children t)) (λ _, ret "Bulls")
            (λ _, ret "Lakers") (λ t, ret (node_children t))
            node_label (λ _, "G") _ _
            (Node "game" [] [bulls_table; lakers_table]) "Bulls" "Lakers"
            [bulls_table; lakers_table] bulls_table lakers_table
            (node_children bulls_table) (node_children lakers_table) w0
            _ _ _ _ _ _ _);
    reflexivity.
Defined.

Lemma game_starters_missing_table_witness :
  LineupRows._extract_game_starters node
    (λ td, ret (node_label td)) (λ _, ret "G") node_texts
    (λ t, ret (node_children t)) (λ _, ret "Bulls") (λ _, ret "Lakers")
    (λ t, ret (node_children t))
    (Node "game" [] [bulls_table]) w0
  = (Raise IndexError, w0).
Proof.
  refine (game_starters_missing_table
            (λ td, ret (node_label td)) (λ _, ret "G") node_texts
            (λ t, ret (node_children t)) (λ _, ret "Bulls")
            (λ _, ret "Lakers") (λ t, ret (node_children t))
            node_label (λ _, "G") _ _
            (Node "game" [] [bulls_table]) "Bulls" "Lakers"
            [bulls_table] w0 _ _ _ _ _);
    try reflexivity.
  - intros t _. by exists (node_children t).
  - simpl. lia.
Defined.

(** ** The related players of a news item *)

Lemma append_assoc s t u : (s +:+ t) +:+ u = s +:+ (t +:+ u).
Proof.
  induction s as [|c s IH]; [done|]. by rewrite !append_cons, IH.
Qed.

Lemma concat_tail f a l :
  String.concat ";" (map (related_entry f) (a :: l))
  = related_entry f a +:+ related_tail f l.
Proof.
  revert a. induction l as [|b l IH]; intros a.
  - simpl. by rewrite append_empty_r.
  - change (String.concat ";" (map (related_entry f) (a :: b :: l)))
      with (related_entry f a
            +:+ ";" +:+ String.concat ";" (map (related_entry f) (b :: l))).
    rewrite IH. reflexivity.
Qed.

Section related_players.
Import NewsRows.

Variable clean : string → M string.

Lemma related_loop_later f l i s w :
  (∀ n w, clean n w = (Ret (f n), w)) →
  Forall (λ a, is_Some (attrs a !! "href")) l →
  related_loop clean (S i) s l w = (Ret (s +:+ related_tail f l), w).
Proof.
  intros Hf Hl. revert i s. induction Hl as [|a l [link Ha] _ IH]; intros i s.
  - simpl. by rewrite append_empty_r.
  - cbn [related_loop].
    erewrite bind_ret by (by apply convert_name_returns).
    erewrite bind_ret by (by apply getitem_Some).
    change (0 <? S i)%nat with true. cbv iota. rewrite IH.
    simpl related_tail. unfold related_entry. rewrite Ha. simpl default.
    by rewrite !append_assoc.
Qed.

Lemma related_loop_first f l w :
  (∀ n w, clean n w = (Ret (f n), w)) →
  Forall (λ a, is_Some (attrs a !! "href")) l →
  related_loop clean 0 "" l w
  = (Ret (String.concat ";" (map (related_entry f) l)), w).
Proof.
  intros Hf Hl. destruct Hl as [|a l [link Ha] Hl]; [done|].
  cbn [related_loop].
  erewrite bind_ret by (by apply convert_name_returns).
  erewrite bind_ret by (by apply getitem_Some).
  change (0 <? 0)%nat with false. cbv iota.
  rewrite (related_loop_later f) by done.
  rewrite concat_tail. unfold related_entry. rewrite Ha. simpl default.
  by rewrite ?append_nil, ?append_assoc.
Qed.

Lemma related_loop_missing l i s w :
  Exists (λ a, attrs a !! "href" = None) l →
  ∃ w', related_loop clean i s l w = (Raise KeyError, w').
Proof.
  revert i s w. induction l as [|a l IH]; intros i s w Hex.
  - by apply Exists_nil in Hex.
  - cbn [related_loop].
    destruct (convert_name_total clean (a_text a) false w) as (v & w1 & Hv).
    erewrite bind_ret by done.
    destruct (attrs a !! "href") as [link|] eqn:Ha.
    + erewrite bind_ret by (by apply getitem_Some).
      apply Exists_cons in Hex as [Hex|Hex]; [congruence|].
      by apply IH.
    + eexists. by erewrite bind_raise; [|by apply getitem_None].
Qed.

(** X11: when [clean] answers as a function [f] and every link has a
    target, [_parse_related_players] returns the entries "name|target" of
    the links joined by semicolons, in the order of the links; with text
    but no link at all the result is the empty string, not None. *)
Theorem related_players_joined :
  ∀ f t w,
    (∀ n w, clean n w = (Ret (f n), w)) →
    text t ≠ "" →
    Forall (λ a, is_Some (attrs a !! "href")) (find_all_a t) →
    _parse_related_players clean (Some t) w
    = (Ret (Some (String.concat ";" (map (related_entry f) (find_all_a t)))),
       w).
Proof.
  intros f t w Hf Ht Hl. unfold _parse_related_players.
  destruct (text t) as [|c s] eqn:E; [done|]. change (String.length (String c s) =? 0)%nat with false. cbv iota.
  unfold try_except.
  erewrite bind_ret by (by apply (related_loop_first f)).
  reflexivity.
Qed.

(** X12: [_parse_related_players] never raises; it returns None for a
    missing tag and for a tag without text, and one link without a target
    is enough for the whole list to come back as None. *)
Theorem related_players_none :
  ∀ tag w,
    (∃ o w', _parse_related_players clean tag w = (Ret o, w'))
    ∧ (match tag with
       | None => True
       | Some t => text t = ""
       end →
       _parse_related_players clean tag w = (Ret None, w))
    ∧ (∀ t, tag = Some t → text t ≠ "" →
         Exists (λ a, attrs a !! "href" = None) (find_all_a t) →
         ∃ w', _parse_related_players clean tag w = (Ret None, w')).
Proof.
  intros tag w. split; [|split].
  - unfold _parse_related_players. destruct tag as [t|]; [|by eexists _, _].
    destruct (String.length (text t) =? 0)%nat; [by eexists _, _|].
    unfold try_except.
    match goal with |- context [match ?b with _ => _ end] =>
      destruct b as [[o|e] w1] end; by eexists _, _.
  - unfold _parse_related_players. destruct tag as [t|]; [|done].
    by intros ->.
  - intros t -> Ht Hex. unfold _parse_related_players.
    destruct (text t) as [|c s] eqn:E; [done|]. change (String.length (String c s) =? 0)%nat with false. cbv iota.
    unfold try_except.
    destruct (related_loop_missing (find_all_a t) 0 "" w Hex) as [w' Hr].
    erewrite bind_raise by done. by eexists.
Qed.

End related_players.

Lemma related_players_joined_witness :
  NewsRows._parse_related_players (λ n, ret ("<" +:+ n +:+ ">"))
    (Some (NewsRows.Related "Related: A, B"
             [NewsRows.ATag "A" {["href" := "/a"]};
              NewsRows.ATag "B" {["href" := "/b"; "class" := "x"]}])) w0
  = (Ret (Some "<A>|/a;<B>|/b"), w0).
Proof.
  refine (related_players_joined (λ n, ret ("<" +:+ n +:+ ">"))
            (λ n, "<" +:+ n +:+ ">")
            (NewsRows.Related "Related: A, B"
               [NewsRows.ATag "A" {["href" := "/a"]};
                NewsRows.ATag "B" {["href" := "/b"; "class" := "x"]}])
            w0 _ _ _).
  - reflexivity.
  - discriminate.
  - repeat constructor; by eexists.
Defined.

Lemma related_players_none_witness :
  ∃ w', NewsRows._parse_related_players (λ n, ret n)
          (Some (NewsRows.Related "Related: A, B"
                   [NewsRows.ATag "A" {["href" := "/a"]};
                    NewsRows.ATag "B" ∅])) w0
        = (Ret None, w').
Proof.
  refine (proj2 (proj2 (related_players_none (λ n, ret n) _ w0))
            _ eq_refl _ _).
  - discriminate.
  - apply Exists_cons_tl, Exists_cons_hd. reflexivity.
Defined.

(** ** The table of odds *)

Section odds_table.
Import OddsRows.

Context {F : Type}.
Variable neg : F → F.

Lemma compile_from i matchups spreads totals df w :
  (length matchups ≤ length (drop i spreads))%nat →
  (length matchups ≤ length (drop i totals))%nat →
  compile F neg i matchups spreads totals df w
  = (Ret (df ++ odds_rows neg matchups (drop i spreads) (drop i totals))%list,
     w).
Proof.
  revert i df. induction matchups as [|[team opp] ms IH]; intros i df Hs Ht.
  - simpl. by rewrite app_nil_r.
  - simpl in Hs, Ht.
    destruct (drop i spreads) as [|sp sps] eqn:Es; simpl in Hs; [lia|].
    destruct (drop i totals) as [|tot tots] eqn:Et; simpl in Ht; [lia|].
    assert (Hsi : spreads !! i = Some sp).
    { rewrite <- (Nat.add_0_r i), <- lookup_drop. by rewrite Es. }
    assert (Hti : totals !! i = Some tot).
    { rewrite <- (Nat.add_0_r i), <- lookup_drop. by rewrite Et. }
    assert (Es' : drop (S i) spreads = sps).
    { replace (S i) with (i + 1)%nat by lia. by rewrite <- drop_drop, Es. }
    assert (Et' : drop (S i) totals = tots).
    { replace (S i) with (i + 1)%nat by lia. by rewrite <- drop_drop, Et. }
    cbn [compile].
    erewrite bind_ret by (by apply index_Some).
    erewrite bind_ret by (by apply index_Some).
    rewrite IH by (rewrite ?Es', ?Et'; lia).
    rewrite Es', Et'. cbn [odds_rows]. rewrite <- app_assoc.
    by destruct sp.
Qed.

Lemma compile_short i matchups spreads totals df w :
  (length (drop i spreads) < length matchups
   ∨ length (drop i totals) < length matchups)%nat →
  compile F neg i matchups spreads totals df w = (Raise IndexError, w).
Proof.
  revert i df. induction matchups as [|[team opp] ms IH]; intros i df H.
  - simpl in H. lia.
  - cbn [compile].
    destruct (spreads !! i) as [sp|] eqn:Es;
      [|by erewrite bind_raise; [|by apply index_None]].
    erewrite bind_ret by (by apply index_Some).
    destruct (totals !! i) as [tot|] eqn:Et;
      [|by erewrite bind_raise; [|by apply index_None]].
    erewrite bind_ret by (by apply index_Some).
    apply IH.
    rewrite !length_drop in *. simpl in H.
    apply lookup_lt_Some in Es, Et. lia.
Qed.

Lemma odds_rows_length matchups spreads totals :
  (length matchups ≤ length spreads)%nat →
  (length matchups ≤ length totals)%nat →
  length (odds_rows neg matchups spreads totals) = (2 * length matchups)%nat.
Proof.
  revert spreads totals.
  induction matchups as [|[team opp] ms IH]; intros sps tots Hs Ht; [done|].
  destruct sps as [|sp sps]; simpl in Hs; [lia|].
  destruct tots as [|tot tots]; simpl in Ht; [lia|].
  simpl. rewrite IH by lia. lia.
Qed.

Lemma odds_rows_lookup matchups spreads totals i team opp sp tot :
  matchups !! i = Some (team, opp) →
  spreads !! i = Some sp → totals !! i = Some tot →
  odds_rows neg matchups spreads totals !! (2 * i)%nat
  = Some (Row team opp tot sp)
  ∧ odds_rows neg matchups spreads totals !! (2 * i + 1)%nat
    = Some (Row opp team tot (negate neg sp)).
Proof.
  revert matchups spreads totals.
  induction i as [|i IH]; intros ms sps tots Hm Hs Ht;
    destruct ms as [|[a b] ms]; try discriminate;
    destruct sps as [|sp0 sps]; try discriminate;
    destruct tots as [|tot0 tots]; try discriminate.
  - simpl in *. by simplify_eq.
  - simpl in Hm, Hs, Ht.
    replace (2 * S i)%nat with (S (S (2 * i))) by lia.
    replace (S (S (2 * i)) + 1)%nat with (S (S (2 * i + 1))) by lia.
    cbn [odds_rows]. simpl lookup. by apply IH.
Qed.

End odds_table.

Lemma oddsshark_convert_team_value table label w :
  ∃ w', OddsShark.convert_team table label w
        = (Ret (converted table true label), w').
Proof.
  unfold OddsShark.convert_team, try_except, converted.
  destruct (table !! label) as [code|] eqn:E.
  - erewrite bind_ret by (by apply getitem_Some). by eexists.
  - erewrite bind_raise by (by apply getitem_None). by eexists.
Qed.

Lemma oddsshark_convert_column table column w :
  ∃ w', for_each (OddsShark.convert_team table) column w
        = (Ret (map (converted table true) column), w').
Proof.
  revert w. induction column as [|label column IH]; intros w.
  - by eexists.
  - destruct (oddsshark_convert_team_value table label w) as [w1 H1].
    destruct (IH w1) as [w2 H2]. exists w2. cbn [for_each].
    erewrite bind_ret by done. by erewrite bind_ret by done.
Qed.

Lemma zip_with_columns {F} (f g : string → option string)
    (df : list (OddsRows.row F string)) :
  zip_with OddsRows.set_cells df
    (zip (map f (map OddsRows.team df)) (map g (map OddsRows.opp df)))
  = map (λ r, OddsRows.set_cells r (f (OddsRows.team r), g (OddsRows.opp r)))
        df.
Proof. induction df as [|r df IH]; [done|]. simpl. by rewrite IH. Qed.

Section odds_theorems.
Import OddsRows.

Context {F : Type}.
Variable neg : F → F.

(** X13: when there are at least as many spreads and totals as matchups,
    the loop of [OddsShark.scrape] adds two rows per matchup to the frame:
    rows 2i and 2i+1 pair the i-th matchup with the i-th spread and
    total, the second row with the teams exchanged and the spread of
    opposite sign (nan staying nan); spreads and totals beyond the last
    matchup are not read. *)
Theorem compile_rows :
  ∀ matchups spreads totals df w,
    (length matchups ≤ length spreads)%nat →
    (length matchups ≤ length totals)%nat →
    ∃ rows,
      compile F neg 0 matchups spreads totals df w = (Ret (df ++ rows)%list, w)
      ∧ length rows = (2 * length matchups)%nat
      ∧ ∀ i team opp sp tot,
          matchups !! i = Some (team, opp) →
          spreads !! i = Some sp → totals !! i = Some tot →
          rows !! (2 * i)%nat = Some (Row team opp tot sp)
          ∧ rows !! (2 * i + 1)%nat
            = Some (Row opp team tot (negate neg sp)).
Proof.
  intros matchups spreads totals df w Hs Ht.
  exists (odds_rows neg matchups spreads totals). split; [|split].
  - by rewrite compile_from.
  - by apply odds_rows_length.
  - intros i team opp sp tot. apply odds_rows_lookup.
Qed.

(** X14: when the spreads or the totals are fewer than the matchups, the
    loop of [OddsShark.scrape] raises [IndexError]. *)
Theorem compile_misaligned :
  ∀ matchups spreads totals df w,
    (length spreads < length matchups
     ∨ length totals < length matchups)%nat →
    compile F neg 0 matchups spreads totals df w = (Raise IndexError, w).
Proof.
  intros matchups spreads totals df w H. by apply compile_short.
Qed.

(** X15: on a page without matchups the end of [OddsShark.scrape] raises
    [ZeroDivisionError]: the frame is compiled, then the detector divides
    by the number of labels, which is zero. *)
Theorem finish_no_matchups :
  ∀ table spreads totals df w,
    finish F neg table [] spreads totals df w = (Raise ZeroDivisionError, w).
Proof. reflexivity. Qed.

(** X16: with matchups, and spreads and totals for each of them, the end
    of [OddsShark.scrape] never raises.  When the detector answers short
    names, every team and opponent cell of the frame that is a key of the
    table is replaced by its code and every other cell is kept; when it
    answers codes, the frame is left as compiled and nothing is printed.
    No cell is None. *)
Theorem finish_converts :
  ∀ table matchups spreads totals df w,
    matchups ≠ [] →
    (length matchups ≤ length spreads)%nat →
    (length matchups ≤ length totals)%nat →
    let short :=
      (length (labels matchups) <? 2 * matching table matchups)%nat in
    ∃ w',
      finish F neg table matchups spreads totals df w
      = (Ret (map (λ r, set_cells r (converted table short (team r),
                                      converted table short (opp r)))
                  (df ++ odds_rows neg matchups spreads totals)), w')
      ∧ (short = false → w' = w).
Proof.
  intros table matchups spreads totals df w Hne Hs Ht short.
  unfold finish.
  erewrite bind_ret by (by apply compile_from).
  erewrite bind_ret by (by apply detector_nonempty).
  replace (Z.of_nat (length (labels matchups))
           <? 2 * Z.of_nat (matching table matchups)) with short.
  2:{ unfold short.
      destruct (Nat.ltb_spec (length (labels matchups))
                  (2 * matching table matchups));
        symmetry; [apply Z.ltb_lt|apply Z.ltb_ge]; lia. }
  set (rows := (df ++ odds_rows neg matchups spreads totals)%list).
  destruct short.
  - destruct (oddsshark_convert_column table (map team rows) w) as [w1 H1].
    destruct (oddsshark_convert_column table (map opp rows) w1) as [w2 H2].
    exists w2. split; [|done].
    erewrite bind_ret by done. erewrite bind_ret by done.
    unfold ret. by rewrite zip_with_columns.
  - exists w. split; [|done]. reflexivity.
Qed.

End odds_theorems.

Lemma compile_rows_witness :
  ∃ rows,
    OddsRows.compile Z Z.opp 0 [("Chicago", "Boston")]
      [OddsRows.Num (-3); OddsRows.NaN] [OddsRows.Num 210] [] w0
    = (Ret ([] ++ rows)%list, w0)
    ∧ length rows = (2 * length [("Chicago", "Boston")])%nat
    ∧ ∀ i team opp sp tot,
        [("Chicago", "Boston")] !! i = Some (team, opp) →
        [OddsRows.Num (-3); OddsRows.NaN] !! i = Some sp →
        [OddsRows.Num 210] !! i = Some tot →
        rows !! (2 * i)%nat = Some (OddsRows.Row team opp tot sp)
        ∧ rows !! (2 * i + 1)%nat
          = Some (OddsRows.Row opp team tot (negate Z.opp sp)).
Proof.
  refine (compile_rows Z.opp [("Chicago", "Boston")]
            [OddsRows.Num (-3); OddsRows.NaN] [OddsRows.Num 210] [] w0 _ _);
    simpl; lia.
Defined.

Lemma compile_misaligned_witness :
  OddsRows.compile Z Z.opp 0 [("Chicago", "Boston"); ("NYK", "LAL")]
    [OddsRows.Num (-3); OddsRows.NaN] [OddsRows.Num 210] [] w0
  = (Raise IndexError, w0).
Proof.
  refine (compile_misaligned Z.opp _ _ _ [] w0 _). right. simpl. lia.
Defined.

Lemma finish_converts_witness :
  ∃ w',
    OddsRows.finish Z Z.opp {["Chicago" := "CHI"; "Boston" := "BOS"]}
      [("Chicago", "Boston"); ("Chicago", "LAL")]
      [OddsRows.Num (-3); OddsRows.NaN]
      [OddsRows.Num 210; OddsRows.Num 199] [] w0
    = (Ret [OddsRows.Row (Some "CHI") (Some "BOS")
              (OddsRows.Num 210) (OddsRows.Num (-3));
            OddsRows.Row (Some "BOS") (Some "CHI")
              (OddsRows.Num 210) (OddsRows.Num 3);
            OddsRows.Row (Some "CHI") (Some "LAL")
              (OddsRows.Num 199) OddsRows.NaN;
            OddsRows.Row (Some "LAL") (Some "CHI")
              (OddsRows.Num 199) OddsRows.NaN], w')
    ∧ (true = false → w' = w0).
Proof.
  refine (finish_converts Z.opp {["Chicago" := "CHI"; "Boston" := "BOS"]}
            [("Chicago", "Boston"); ("Chicago", "LAL")]
            [OddsRows.Num (-3); OddsRows.NaN]
            [OddsRows.Num 210; OddsRows.Num 199] [] w0 _ _ _).
  - discriminate.
  - simpl. lia.
  - simpl. lia.
Defined.
